(** * The proxy store of webext-redux ([src/store/Store.js])

    A shallow embedding of the [Store] class: JavaScript values with their
    truthiness, strict equality and property access; a state-and-exception
    monad over the store instance and an execution trace; the constructor,
    the inbound message listener, [initializeStore], [subscribe],
    [replaceState], [patchState] and [dispatch]; and the properties of the
    readiness signal, of the listener registry and of [dispatch]. *)

From Stdlib Require Import String Ascii List ZArith Bool Arith Lia.
From Stdlib Require Import DecimalString.
Import ListNotations.
Open Scope string_scope.
Open Scope list_scope.

Set Implicit Arguments.
Set Warnings "-register-all".

(** ** JavaScript values *)

(** The values that travel over the transport and live in the store:
    primitives and plain objects.  A number is an integer or [NaN]; an object
    is its list of own properties.  Functions are not values of this type:
    the places of the code that take a function have the type [arg]. *)
Inductive value : Type :=
| VUndefined
| VNull
| VBool (b : bool)
| VNum (n : Z)
| VNaN
| VStr (s : string)
| VObj (fields : list (string * value)).

(** What can be thrown. *)
Inductive exn : Type :=
| Error (message : string)
| TypeError
| Thrown (v : value).

(** The result of a computation that returns or throws. *)
Inductive res (A : Type) : Type :=
| Ok (a : A)
| Throw (e : exn).
Arguments Ok {A} a.
Arguments Throw {A} e.

(** [Boolean(v)], the test of [if (v)], [!v] and [v && w]. *)
Definition truthy (v : value) : bool :=
  match v with
  | VUndefined | VNull | VNaN => false
  | VBool b => b
  | VNum n => negb (n =? 0)%Z
  | VStr s => negb (s =? "")
  | VObj _ => true
  end.

(** [a === b].  Primitives are compared by value and [NaN] equals nothing.
    Objects are compared by reference: the two sides of every [===] of the
    store are a value received from the transport and a value the store
    holds, and an object that arrives in a message is a fresh copy, so two
    objects are never equal here. *)
Definition strict_eq (a b : value) : bool :=
  match a, b with
  | VUndefined, VUndefined => true
  | VNull, VNull => true
  | VBool x, VBool y => Bool.eqb x y
  | VNum x, VNum y => (x =? y)%Z
  | VStr x, VStr y => (x =? y)
  | _, _ => false
  end.

(** [typeof v === "string"]. *)
Definition is_string (v : value) : bool :=
  match v with VStr _ => true | _ => false end.

Fixpoint lookup (k : string) (fields : list (string * value)) : value :=
  match fields with
  | [] => VUndefined
  | (k', v) :: rest => if k =? k' then v else lookup k rest
  end.

(** [v.k]: a [TypeError] on [undefined] and [null], the property of an
    object, [undefined] on the other primitives (none of the property names
    the store reads, [type], [channelName], [payload], [error] and [value],
    exists on a primitive's prototype). *)
Definition get (v : value) (k : string) : res value :=
  match v with
  | VUndefined | VNull => Throw TypeError
  | VObj fields => Ok (lookup k fields)
  | _ => Ok VUndefined
  end.

(** An option of the constructor: a plain value or a function. *)
Inductive arg (A : Type) : Type :=
| Val (v : value)
| Fun (f : A).
Arguments Val {A} v.
Arguments Fun {A} f.

(** [typeof a === "function"]. *)
Definition is_function {A : Type} (a : arg A) : bool :=
  match a with Fun _ => true | Val _ => false end.

(** A destructuring default [{x = d}]: [d] replaces [undefined] only. *)
Definition default_value (v d : value) : value :=
  match v with VUndefined => d | _ => v end.

Definition default_arg {A : Type} (a : arg A) (d : A) : arg A :=
  match a with Val VUndefined => Fun d | _ => a end.

(** [object[k] = v] on the properties of an object: the property is
    replaced where it is, or added at the end. *)
Fixpoint setKey (k : string) (v : value) (fields : list (string * value))
  : list (string * value) :=
  match fields with
  | [] => [(k, v)]
  | (k', w) :: rest =>
      if k =? k' then (k, v) :: rest else (k', w) :: setKey k v rest
  end.

(** An [Error] object: its [message] property and the other properties put
    on it. *)
Record ErrorObj : Type := {
  message : value;
  own : list (string * value)
}.

(** [new Error(msg)]. *)
Definition new_Error (msg : string) : ErrorObj :=
  {| message := VStr msg; own := [] |}.

(** [object[k] = v] on an error. *)
Definition assignValue (object : ErrorObj) (k : string) (v : value)
  : ErrorObj :=
  if k =? "message" then {| message := v; own := own object |}
  else {| message := message object; own := setKey k v (own object) |}.

(** The characters of a string, as the values [s[0]], [s[1]], ... *)
Fixpoint chars (s : string) : list value :=
  match s with
  | EmptyString => []
  | String c rest => VStr (String c EmptyString) :: chars rest
  end.

(** The property name of the index [i]. *)
Definition index_key (i : nat) : string :=
  NilZero.string_of_uint (Nat.to_uint i).

(** The enumerable properties of a value, as [for (key in source)] visits
    them, each with [source[key]]: the properties of an object, the indices
    of a string, nothing on a number or a boolean. *)
Definition enumerable (source : value) : list (string * value) :=
  match source with
  | VObj fields => map (fun kv => (fst kv, lookup (fst kv) fields)) fields
  | VStr s => combine (map index_key (seq 0 (String.length s))) (chars s)
  | _ => []
  end.

(** [assignIn(object, source)] of lodash, on an error object: a falsy source
    is skipped; otherwise every enumerable property of the source is
    assigned to the object, in order. *)
Definition assignIn (object : ErrorObj) (source : value) : ErrorObj :=
  if truthy source
  then fold_left (fun e kv => assignValue e (fst kv) (snd kv))
                 (enumerable source) object
  else object.

(** ** What the store imports *)

Definition serializer_t : Type := value -> res value.
Definition deserializer_t : Type := value -> res value.
Definition patchStrategy_t : Type := value -> value -> value.

(** The imports of [Store.js] that are not part of it.  The constants of
    [../constants] and the default patch strategy of
    [../strategies/shallowDiff/patch] are parameters; [toStr] is the string
    conversion of a template literal.

    Modelled from the spec: [payloadPresent], the part of the serialization
    boundary ([withSerializer] and [withDeserializer] of [../serialization])
    that says which payloads are handed to the codec.  The spec says that the
    codecs are applied to outgoing and incoming payloads and does not say
    what happens to a message without a payload, so this stays a parameter. *)
Class Imports : Type := {
  DISPATCH_TYPE : string;
  FETCH_STATE_TYPE : string;
  STATE_TYPE : string;
  PATCH_STATE_TYPE : string;
  DEFAULT_CHANNEL_NAME : string;
  shallowDiff : patchStrategy_t;
  toStr : value -> string;
  payloadPresent : value -> bool
}.

(** Modelled from the spec: [noop] of [../serialization], the default codec,
    which the spec gives as the identity. *)
Definition noop (payload : value) : value := payload.

Definition nl : string := String (ascii_of_nat 10) EmptyString.

Definition backgroundErrPrefix : string :=
  nl ++ "Looks like there is an error in the background page. " ++
  "You might want to inspect your background page for more details." ++ nl.

(** ** The store and the execution trace *)

(** Listeners are compared by identity ([l !== listener]): a listener is its
    identity.  A call of a listener is recorded in the trace; listeners
    return normally and do not call back into the store. *)
Definition listener : Type := nat.

(** The state of [readyPromise]. *)
Inductive promise : Type :=
| Pending
| Fulfilled (v : value).

Record Store : Type := {
  channelName : value;
  readyResolved : bool;
  readyPromise : promise;
  deserializer : deserializer_t;
  (** the serializer [serializedMessageSender] is built from *)
  serializer : serializer_t;
  listeners : list listener;
  state : value;
  patchStrategy : patchStrategy_t;
  (** the calls of [patchState] suspended at [await this.readyPromise], in
      the order they were made: the reactions of one promise run in the order
      they were registered *)
  suspended : list value
}.

(** What an execution does that can be seen from outside the instance. *)
Inductive effect : Type :=
| ESendMessage (message : value)        (* browserAPI.runtime.sendMessage *)
| EAddListener                          (* browserAPI.runtime.onMessage.addListener *)
| EDeserialize (v : value)              (* a call of the deserializer *)
| EPatchStrategy (current diff : value) (* a call of the patch strategy *)
| ESetState (v : value)                 (* this.state = v *)
| ECall (l : listener)                  (* l() *)
| EReadyResolve.                        (* this.readyResolve() *)

Definition Trace : Type := list effect.

Record Runtime : Type := {
  this : Store;
  trace : Trace
}.

(** ** The monad: state that survives an exception *)

Definition M (S A : Type) : Type := S -> res A * S.

Definition ret {S A : Type} (a : A) : M S A := fun s => (Ok a, s).

Definition bind {S A B : Type} (m : M S A) (k : A -> M S B) : M S B :=
  fun s =>
    match m s with
    | (Ok a, s') => k a s'
    | (Throw e, s') => (Throw e, s')
    end.

Definition throw {S A : Type} (e : exn) : M S A := fun s => (Throw e, s).

Definition lift {S A : Type} (r : res A) : M S A := fun s => (r, s).

Declare Scope js_scope.
Delimit Scope js_scope with js.
Notation "x <- m ;; k" := (bind m (fun x => k))
  (at level 100, m at next level, right associativity) : js_scope.
Notation "m ;; k" := (bind m (fun _ => k))
  (at level 100, right associativity) : js_scope.
Open Scope js_scope.

Definition gets {A : Type} (f : Store -> A) : M Runtime A :=
  fun rt => (Ok (f (this rt)), rt).

Definition modify (f : Store -> Store) : M Runtime unit :=
  fun rt => (Ok tt, {| this := f (this rt); trace := trace rt |}).

Definition emit (e : effect) : M Runtime unit :=
  fun rt => (Ok tt, {| this := this rt; trace := trace rt ++ [e] |}).

(** The constructor runs before there is an instance: its state is the
    trace alone. *)
Definition emit0 (e : effect) : M Trace unit :=
  fun tr => (Ok tt, tr ++ [e]).

(** [xs.forEach(f)]: the elements are those of the array when the loop
    starts. *)
Fixpoint forEach {S A : Type} (xs : list A) (f : A -> M S unit) : M S unit :=
  match xs with
  | [] => ret tt
  | x :: rest => f x ;; forEach rest f
  end.

(** Field updates of [this]. *)
Definition set_readyResolved (b : bool) (s : Store) : Store :=
  {| channelName := channelName s; readyResolved := b;
     readyPromise := readyPromise s; deserializer := deserializer s;
     serializer := serializer s; listeners := listeners s; state := state s;
     patchStrategy := patchStrategy s; suspended := suspended s |}.

Definition set_readyPromise (p : promise) (s : Store) : Store :=
  {| channelName := channelName s; readyResolved := readyResolved s;
     readyPromise := p; deserializer := deserializer s;
     serializer := serializer s; listeners := listeners s; state := state s;
     patchStrategy := patchStrategy s; suspended := suspended s |}.

Definition set_listeners (ls : list listener) (s : Store) : Store :=
  {| channelName := channelName s; readyResolved := readyResolved s;
     readyPromise := readyPromise s; deserializer := deserializer s;
     serializer := serializer s; listeners := ls; state := state s;
     patchStrategy := patchStrategy s; suspended := suspended s |}.

Definition set_state (v : value) (s : Store) : Store :=
  {| channelName := channelName s; readyResolved := readyResolved s;
     readyPromise := readyPromise s; deserializer := deserializer s;
     serializer := serializer s; listeners := listeners s; state := v;
     patchStrategy := patchStrategy s; suspended := suspended s |}.

Definition set_suspended (ds : list value) (s : Store) : Store :=
  {| channelName := channelName s; readyResolved := readyResolved s;
     readyPromise := readyPromise s; deserializer := deserializer s;
     serializer := serializer s; listeners := listeners s; state := state s;
     patchStrategy := patchStrategy s; suspended := ds |}.

(** ** The class *)

Section StoreClass.

Context {imports : Imports}.

(** The options of the constructor.  An option that is left out is
    [Val VUndefined]. *)
Record Options : Type := {
  opt_channelName : value;
  opt_state : value;
  opt_serializer : arg serializer_t;
  opt_deserializer : arg deserializer_t;
  opt_patchStrategy : arg patchStrategy_t
}.

Definition defaultOpts : Options :=
  {| opt_channelName := VStr DEFAULT_CHANNEL_NAME;
     opt_state := VObj [];
     opt_serializer := Fun (fun payload => Ok (noop payload));
     opt_deserializer := Fun (fun payload => Ok (noop payload));
     opt_patchStrategy := Fun shallowDiff |}.

(** Modelled from the spec: the payload transformation of the serialization
    boundary of [../serialization].  The codec is applied to the payload of
    the message and the result replaces the payload; the other properties of
    the message are kept. *)
Fixpoint setPayload (v : value) (fields : list (string * value))
  : list (string * value) :=
  match fields with
  | [] => [("payload", v)]
  | (k, w) :: rest =>
      if k =? "payload" then (k, v) :: rest else (k, w) :: setPayload v rest
  end.

Definition withPayload (message payload : value) : value :=
  match message with
  | VObj fields => VObj (setPayload payload fields)
  | _ => message
  end.

(** Modelled from the spec: [withDeserializer] of [../serialization], applied
    to the listener of the store.  As the comment on [shouldDeserialize] in
    the constructor says, the listener is called for each message and the
    predicate only decides whether the message is run through the
    deserializer first.  The predicate and the listener are the store's. *)
Definition withDeserializer {A : Type}
    (deserializer : deserializer_t)
    (listener : value -> M Runtime A)
    (shouldDeserialize : value -> M Runtime bool)
    (message : value) : M Runtime A :=
  should <- shouldDeserialize message ;;
  if should then
    payload <- lift (get message "payload") ;;
    if payloadPresent payload then
      emit (EDeserialize payload) ;;
      payload' <- lift (deserializer payload) ;;
      listener (withPayload message payload')
    else listener message
  else listener message.

(** Modelled from the spec: [withSerializer] of [../serialization], applied
    to the message of [dispatch]: the serializer transforms the payload of
    the outgoing message. *)
Definition withSerializer (serializer : serializer_t) (message : value)
  : res value :=
  match message with
  | VObj fields =>
      let payload := lookup "payload" fields in
      if payloadPresent payload then
        match serializer payload with
        | Ok payload' => Ok (withPayload message payload')
        | Throw e => Throw e
        end
      else Ok message
  | _ => Ok message
  end.

(** [constructor(options)].  [None] is a call without argument, for which
    the parameter takes its default [defaultOpts]; the API of the browser is
    present. *)
Definition Store_constructor (options : option Options) : M Trace Store :=
  let o := match options with Some o => o | None => defaultOpts end in
  let channelName :=
    default_value (opt_channelName o) (opt_channelName defaultOpts) in
  let state := default_value (opt_state o) (opt_state defaultOpts) in
  let serializer :=
    default_arg (opt_serializer o) (fun payload => Ok (noop payload)) in
  let deserializer :=
    default_arg (opt_deserializer o) (fun payload => Ok (noop payload)) in
  let patchStrategy := default_arg (opt_patchStrategy o) shallowDiff in
  if negb (truthy channelName) then
    throw (Error "channelName is required in options")
  else
  match serializer with
  | Val _ => throw (Error "serializer must be a function")
  | Fun serializer =>
  match deserializer with
  | Val _ => throw (Error "deserializer must be a function")
  | Fun deserializer =>
  match patchStrategy with
  | Val _ =>
      throw (Error ("patchStrategy must be one of the included patching " ++
                    "strategies or a custom patching function"))
  | Fun patchStrategy =>
      emit0 (ESendMessage (VObj [("type", VStr FETCH_STATE_TYPE);
                                 ("channelName", channelName)])) ;;
      emit0 EAddListener ;;
      ret {| channelName := channelName;
             readyResolved := false;
             readyPromise := Pending;
             deserializer := deserializer;
             serializer := serializer;
             listeners := [];
             state := state;
             patchStrategy := patchStrategy;
             suspended := [] |}
  end end end.

(** [this.readyResolve()]: the resolve function of [readyPromise], called
    without argument.  Resolving a promise that is settled does nothing. *)
Definition fulfil (v : value) (s : Store) : Store :=
  match readyPromise s with
  | Pending => set_readyPromise (Fulfilled v) s
  | Fulfilled _ => s
  end.

Definition readyResolve : M Runtime unit :=
  emit EReadyResolve ;;
  modify (fulfil VUndefined).

(** [this.listeners.forEach((l) => l())]. *)
Definition notify : M Runtime unit :=
  ls <- gets listeners ;;
  forEach ls (fun l => emit (ECall l)).

(** [replaceState(state)]. *)
Definition replaceState (state : value) : M Runtime unit :=
  emit (ESetState state) ;;
  modify (set_state state) ;;
  notify.

(** The two lines of [patchState] after the [await]. *)
Definition applyPatch (difference : value) : M Runtime unit :=
  current <- gets state ;;
  strategy <- gets patchStrategy ;;
  emit (EPatchStrategy current difference) ;;
  let next := strategy current difference in
  emit (ESetState next) ;;
  modify (set_state next) ;;
  notify.

(** [async patchState(difference)].  When [readyResolved] is false the call
    suspends at [await this.readyPromise] and returns; its continuation is
    [applyPatch difference], run by [resume]. *)
Definition patchState (difference : value) : M Runtime unit :=
  ready <- gets readyResolved ;;
  if negb ready then
    modify (fun s => set_suspended (suspended s ++ [difference]) s)
  else applyPatch difference.

(** The continuations waiting on [readyPromise] run, in order, once the
    promise is fulfilled and the running handler has returned. *)
Definition resume : M Runtime unit :=
  p <- gets readyPromise ;;
  match p with
  | Pending => ret tt
  | Fulfilled _ =>
      ds <- gets suspended ;;
      modify (set_suspended []) ;;
      forEach ds applyPatch
  end.

(** The [if (!this.readyResolved) {...}] of both initialization paths. *)
Definition resolveOnce : M Runtime unit :=
  ready <- gets readyResolved ;;
  if negb ready then
    modify (set_readyResolved true) ;;
    readyResolve
  else ret tt.

(** [shouldDeserialize] of the constructor. *)
Definition shouldDeserialize (message : value) : M Runtime bool :=
  if truthy message then
    type <- lift (get message "type") ;;
    if is_string type then
      name <- lift (get message "channelName") ;;
      own_name <- gets channelName ;;
      ret (strict_eq name own_name)
    else ret false
  else ret false.

(** The listener the constructor passes to [serializedPortListener]. *)
Definition portListener (message : value) : M Runtime unit :=
  if negb (truthy message) then ret tt
  else
    name <- lift (get message "channelName") ;;
    own_name <- gets channelName ;;
    if negb (strict_eq name own_name) then ret tt
    else
      type <- lift (get message "type") ;;
      if strict_eq type (VStr STATE_TYPE) then
        payload <- lift (get message "payload") ;;
        replaceState payload ;;
        resolveOnce
      else if strict_eq type (VStr PATCH_STATE_TYPE) then
        payload <- lift (get message "payload") ;;
        patchState payload
      else ret tt.

(** What [browserAPI.runtime.onMessage] calls for an inbound message. *)
Definition onMessage (message : value) : M Runtime unit :=
  des <- gets deserializer ;;
  withDeserializer des portListener shouldDeserialize message.

(** [initializeStore(message)], the callback of the FETCH_STATE request. *)
Definition initializeStore (message : value) : M Runtime unit :=
  if truthy message then
    type <- lift (get message "type") ;;
    if strict_eq type (VStr FETCH_STATE_TYPE) then
      payload <- lift (get message "payload") ;;
      des <- gets deserializer ;;
      emit (EDeserialize payload) ;;
      state <- lift (des payload) ;;
      replaceState state ;;
      resolveOnce
    else ret tt
  else ret tt.

(** [subscribe(listener)]: the result is the unsubscribe function. *)
Definition unsubscribe (l : listener) : M Runtime unit :=
  modify (fun s =>
    set_listeners (filter (fun l' => negb (l' =? l)%nat) (listeners s)) s).

Definition subscribe (l : listener) : M Runtime (M Runtime unit) :=
  modify (fun s => set_listeners (listeners s ++ [l]) s) ;;
  ret (unsubscribe l).

(** [getState()]. *)
Definition getState : M Runtime value := gets state.

(** [replaceReducer()]. *)
Definition replaceReducer : M Runtime unit := ret tt.


(** What the transport passes to the callback of [dispatch]: the response,
    and [browserAPI.runtime.lastError] as it is when the callback runs. *)
Record Reply : Type := {
  resp : value;
  lastError : value
}.

(** The promise [dispatch] returns: pending, resolved with a value,
    rejected by the callback with an error it built, or rejected with what
    the executor of the promise threw. *)
Inductive settlement : Type :=
| Unsettled
| Resolved (v : value)
| Rejected (e : ErrorObj)
| RejectedThrown (e : exn).

(** The callback [dispatch] passes to the transport. *)
Definition dispatchCallback (reply : Reply) : M Runtime settlement :=
  let resp := resp reply in
  if negb (truthy resp) then
    let error := lastError reply in
    let bgErr := new_Error (backgroundErrPrefix ++ toStr error) in
    ret (Rejected (assignIn bgErr error))
  else
    error <- lift (get resp "error") ;;
    value <- lift (get resp "value") ;;
    des <- gets deserializer ;;
    emit (EDeserialize value) ;;
    let value := match des value with Ok v => v | Throw _ => value end in
    if truthy error then
      let bgErr := new_Error (backgroundErrPrefix ++ toStr error) in
      ret (Rejected (assignIn bgErr error))
    else if truthy value then
      payload <- lift (get value "payload") ;;
      ret (Resolved payload)
    else ret (Resolved value).

(** The first argument of [serializedMessageSender] in [dispatch], as the
    serializer leaves it. *)
Definition dispatchMessage (s : Store) (data : value) : res value :=
  withSerializer (serializer s)
    (VObj [("type", VStr DISPATCH_TYPE);
           ("channelName", channelName s);
           ("payload", data)]).

(** [dispatch(data)].  [reply] is what the transport answers to the
    message, if it ever does; the result is the final state of the returned
    promise.  The message is serialized and sent inside the executor of the
    promise: when the serializer throws, the promise is rejected with what it
    threw and nothing is sent.  The transport itself returns. *)
Definition dispatch (data : value) (reply : option Reply)
  : M Runtime settlement :=
  message <- gets (fun s => dispatchMessage s data) ;;
  match message with
  | Throw e => ret (RejectedThrown e)
  | Ok message =>
      emit (ESendMessage message) ;;
      match reply with
      | None => ret Unsettled
      | Some reply => dispatchCallback reply
      end
  end.

(** ** The event loop *)

(** What can happen to an instance: the transport delivers a message or
    answers the FETCH_STATE request, or the application calls a method. *)
Inductive Event : Type :=
| Inbound (message : value)
| FetchAnswer (message : value)
| CallSubscribe (l : listener)
| CallUnsubscribe (l : listener)
| CallGetState
| CallReplaceReducer
| CallReplaceState (state : value)
| CallPatchState (difference : value)
| CallDispatch (data : value) (reply : option Reply).

Definition handle (e : Event) : M Runtime unit :=
  match e with
  | Inbound message => onMessage message
  | FetchAnswer message => initializeStore message
  | CallSubscribe l => subscribe l ;; ret tt
  | CallUnsubscribe l => unsubscribe l
  | CallGetState => getState ;; ret tt
  | CallReplaceReducer => replaceReducer
  | CallReplaceState state => replaceState state
  | CallPatchState difference => patchState difference
  | CallDispatch data reply => dispatch data reply ;; ret tt
  end.

(** One turn of the event loop: the handler runs to its end (an exception
    goes to its caller and the instance stays as it is at the throw), then
    the continuations that became ready run. *)
Definition task (e : Event) (rt : Runtime) : Runtime :=
  snd (resume (snd (handle e rt))).

Definition run (events : list Event) (rt : Runtime) : Runtime :=
  fold_left (fun rt e => task e rt) events rt.

(** The instances a program can have: a constructed one, after any number
    of turns. *)
Inductive Reachable : Runtime -> Prop :=
| Reachable_new (options : option Options) (s : Store) (tr : Trace) :
    Store_constructor options [] = (Ok s, tr) ->
    Reachable {| this := s; trace := tr |}
| Reachable_task (e : Event) (rt : Runtime) :
    Reachable rt -> Reachable (task e rt).

(** The number of calls of [readyResolve] in a trace. *)
Fixpoint resolutions (tr : Trace) : nat :=
  match tr with
  | [] => 0
  | EReadyResolve :: rest => S (resolutions rest)
  | _ :: rest => resolutions rest
  end.

(** The calls of the patch strategy in a trace. *)
Fixpoint patches (tr : Trace) : list (value * value) :=
  match tr with
  | [] => []
  | EPatchStrategy current diff :: rest => (current, diff) :: patches rest
  | _ :: rest => patches rest
  end.

(** The listeners called in a trace, in the order of the calls. *)
Fixpoint calls (tr : Trace) : list listener :=
  match tr with
  | [] => []
  | ECall l :: rest => l :: calls rest
  | _ :: rest => calls rest
  end.

(** What a mutation of the state shows: the state, and the listener calls
    so far. *)
Definition footprint (rt : Runtime) : value * list listener :=
  (state (this rt), calls (trace rt)).

(** Steps that neither assign the state nor call a listener. *)
Definition Untouched (rt rt' : Runtime) : Prop :=
  footprint rt' = footprint rt /\
  listeners (this rt') = listeners (this rt) /\
  patchStrategy (this rt') = patchStrategy (this rt) /\
  (readyResolved (this rt) = true -> readyResolved (this rt') = true).

(** The effect of a handler on the footprint: none, or that of one call of
    [replaceState], or that of one call of [patchState]. *)
Definition mutates_as_entry_point (rt rt' : Runtime) : Prop :=
  footprint rt' = footprint rt \/
  (exists v, footprint rt' = footprint (snd (replaceState v rt))) \/
  (exists d, footprint rt' = footprint (snd (patchState d rt))).

(** The trace of [applyPatch] on each of [ds] in turn, from state
    [current], with the listeners [ls]. *)
Fixpoint patchTrace (strategy : patchStrategy_t) (ls : list listener)
    (current : value) (ds : list value) : Trace :=
  match ds with
  | [] => []
  | d :: rest =>
      EPatchStrategy current d :: ESetState (strategy current d)
        :: map ECall ls ++ patchTrace strategy ls (strategy current d) rest
  end.

(** The readiness invariant: [readyResolved] is true exactly when
    [readyPromise] is fulfilled, which is exactly when [readyResolve] has
    been called, once. *)
Definition Inv (rt : Runtime) : Prop :=
  if readyResolved (this rt)
  then readyPromise (this rt) = Fulfilled VUndefined /\
       resolutions (trace rt) = 1
  else readyPromise (this rt) = Pending /\ resolutions (trace rt) = 0.

(** What every step keeps: the invariant, and a resolved readiness. *)
Definition Keeps (rt rt' : Runtime) : Prop :=
  (Inv rt -> Inv rt') /\
  (readyResolved (this rt) = true ->
   readyResolved (this rt') = true /\
   readyPromise (this rt') = readyPromise (this rt) /\
   resolutions (trace rt') = resolutions (trace rt)).

(** What every step keeps while readiness is unresolved: no patch is
    computed and the suspended calls stay, in their order. *)
Definition Quiet (rt rt' : Runtime) : Prop :=
  readyResolved (this rt') = false ->
  readyResolved (this rt) = false /\
  patches (trace rt') = patches (trace rt) /\
  exists more, suspended (this rt') = suspended (this rt) ++ more.

(** A computation whose every run relates the state before to the state
    after, whether it returns or throws. *)
Definition respects (R : Runtime -> Runtime -> Prop) {A : Type}
    (m : M Runtime A) : Prop :=
  forall rt, R rt (snd (m rt)).

(** A field update that leaves the readiness fields alone. *)
Definition readiness_free (f : Store -> Store) : Prop :=
  forall s, readyResolved (f s) = readyResolved s /\
            readyPromise (f s) = readyPromise s.

(** A field update that keeps the suspended calls while readiness is
    unresolved. *)
Definition queue_free (f : Store -> Store) : Prop :=
  forall s, readyResolved (f s) = false ->
            readyResolved s = false /\
            exists more, suspended (f s) = suspended s ++ more.

End StoreClass.

(** ** A concrete environment, for the examples *)

(** A merge of the keys of [diff] into [current], later values winning. *)
Definition mergeKeys (current diff : value) : value :=
  match current, diff with
  | VObj fields, VObj changes =>
      VObj (fold_left (fun acc kv => setKey (fst kv) (snd kv) acc)
                      changes fields)
  | _, _ => current
  end.

(** The string conversion of a template literal, on the values of the
    examples: integers print in decimal. *)
Definition demoToStr (v : value) : string :=
  match v with
  | VUndefined => "undefined"
  | VNull => "null"
  | VBool true => "true"
  | VBool false => "false"
  | VNum n => NilZero.string_of_int (Z.to_int n)
  | VNaN => "NaN"
  | VStr s => s
  | VObj _ => "[object Object]"
  end.

Definition demoImports : Imports :=
  {| DISPATCH_TYPE := "DISPATCH";
     FETCH_STATE_TYPE := "FETCH_STATE";
     STATE_TYPE := "STATE";
     PATCH_STATE_TYPE := "PATCH_STATE";
     DEFAULT_CHANNEL_NAME := "main";
     shallowDiff := mergeKeys;
     toStr := demoToStr;
     payloadPresent := truthy |}.

(** The instance [new Store()] of the concrete environment. *)
Definition demoStore : Store :=
  {| channelName := VStr "main";
     readyResolved := false;
     readyPromise := Pending;
     deserializer := fun payload => Ok (noop payload);
     serializer := fun payload => Ok (noop payload);
     listeners := [];
     state := VObj [];
     patchStrategy := mergeKeys;
     suspended := [] |}.

Definition demoRuntime : Runtime :=
  {| this := demoStore;
     trace := [ESendMessage (VObj [("type", VStr "FETCH_STATE");
                                   ("channelName", VStr "main")]);
               EAddListener] |}.

Definition envelope (type name : string) (payload : value) : value :=
  VObj [("type", VStr type); ("channelName", VStr name);
        ("payload", payload)].

(** A run of the concrete instance: a STATE message arrives first, then the
    answer to FETCH_STATE, then two more STATE messages. *)
Definition demoEvents : list Event :=
  [Inbound (envelope "STATE" "main" (VObj [("count", VNum 0)]));
   FetchAnswer (envelope "FETCH_STATE" "main" (VObj [("count", VNum 1)]));
   Inbound (envelope "STATE" "main" (VObj [("count", VNum 2)]));
   Inbound (envelope "STATE" "main" (VObj [("count", VNum 3)]))].

(** The concrete instance with one listener, before readiness. *)
Definition demoSubscribed : Runtime :=
  run (imports := demoImports) [CallSubscribe 7] demoRuntime.

(** Responses of the transport to a [dispatch]. *)
Definition reply42 : Reply :=
  {| resp := VObj [("value", VObj [("payload", VNum 42)])];
     lastError := VUndefined |}.

Definition replyZero : Reply :=
  {| resp := VObj [("value", VNum 0)]; lastError := VUndefined |}.

Definition replyBoom : Reply :=
  {| resp := VObj [("error", VStr "boom")]; lastError := VUndefined |}.

(** Two uses of the registry.  In the first the same listener is subscribed
    twice and the second unsubscribe function is called once; the result is
    the registry.  In the second a listener is subscribed, unsubscribed and
    subscribed again, and then the first unsubscribe function is called a
    second time; the result is the registry before and after that call. *)
Definition duplicateScenario : M Runtime (list listener) :=
  _ <- subscribe 1 ;;
  u <- subscribe 1 ;;
  u ;;
  gets listeners.

Definition resubscribeScenario : M Runtime (list listener * list listener) :=
  u <- subscribe 1 ;;
  u ;;
  _ <- subscribe 1 ;;
  before <- gets listeners ;;
  u ;;
  after <- gets listeners ;;
  ret (before, after).

(** ** The rest of the class *)

Section Further.

Context {imports : Imports}.

(** The state of [p.then(cb)] once [cb] has run, for a callback that
    returns [cb v] on [v]. *)
Definition then_ (p : promise) (cb : value -> value) : promise :=
  match p with
  | Pending => Pending
  | Fulfilled v => Fulfilled (cb v)
  end.

(** [ready(cb = null)]: [readyPromise], or [readyPromise.then(cb)] when a
    callback is given. *)
Definition ready (cb : option (value -> value)) : M Runtime promise :=
  p <- gets readyPromise ;;
  match cb with
  | Some cb => ret (then_ p cb)
  | None => ret p
  end.

(** The events in which the transport calls the instance. *)
Definition is_delivery (e : Event) : bool :=
  match e with
  | Inbound _ | FetchAnswer _ => true
  | _ => false
  end.

(** The events that register the listener [l]. *)
Definition subscribes (l : listener) (e : Event) : bool :=
  match e with
  | CallSubscribe l' => (l' =? l)%nat
  | _ => false
  end.

(** Steps that leave readiness as it is. *)
Definition SameReadiness (rt rt' : Runtime) : Prop :=
  readyResolved (this rt') = readyResolved (this rt) /\
  readyPromise (this rt') = readyPromise (this rt) /\
  resolutions (trace rt') = resolutions (trace rt).

(** Steps that neither register nor call the listener [l], when it is not
    registered. *)
Definition Unheard (l : listener) (rt rt' : Runtime) : Prop :=
  ~ In l (listeners (this rt)) ->
  ~ In l (listeners (this rt')) /\
  count_occ Nat.eq_dec (calls (trace rt')) l =
  count_occ Nat.eq_dec (calls (trace rt)) l.

End Further.

(** A deserializer that accepts objects only, and the concrete instance
    built with it. *)
Definition objectsOnly : deserializer_t :=
  fun payload =>
    match payload with
    | VObj _ => Ok payload
    | _ => Throw (Error "the payload is not an object")
    end.

Definition strictRuntime : Runtime :=
  {| this :=
       {| channelName := VStr "main";
          readyResolved := false;
          readyPromise := Pending;
          deserializer := objectsOnly;
          serializer := fun payload => Ok (noop payload);
          listeners := [];
          state := VObj [];
          patchStrategy := mergeKeys;
          suspended := [] |};
     trace := trace demoRuntime |}.

(** The concrete instance built with [objectsOnly] as its serializer. *)
Definition strictSender : Runtime :=
  {| this :=
       {| channelName := VStr "main";
          readyResolved := false;
          readyPromise := Pending;
          deserializer := fun payload => Ok (noop payload);
          serializer := objectsOnly;
          listeners := [];
          state := VObj [];
          patchStrategy := mergeKeys;
          suspended := [] |};
     trace := trace demoRuntime |}.

(** A response of the transport with no answer and a last error. *)
Definition replyClosed : Reply :=
  {| resp := VUndefined; lastError := VObj [("message", VStr "closed")] |}.

(** The concrete instance with its listener, after the answer to
    FETCH_STATE. *)
Definition demoReady : Runtime :=
  run (imports := demoImports)
    [FetchAnswer (envelope "FETCH_STATE" "main" (VObj [("count", VNum 0)]))]
    demoSubscribed.

(** ** Running the monad *)

Section Properties.

Context {imports : Imports}.

(** Traces are compared up to the bracketing of [++]. *)
Ltac trace_eq :=
  simpl; rewrite <- ?app_assoc; simpl; rewrite ?app_nil_r;
  rewrite <- ?app_assoc; simpl; reflexivity.

Lemma forEach_calls (ls : list listener) (rt : Runtime) :
  forEach ls (fun l => emit (ECall l)) rt =
  (Ok tt, {| this := this rt; trace := trace rt ++ map ECall ls |}).
Proof.
  revert rt. induction ls as [|l ls IH]; intros rt; simpl.
  - unfold ret. rewrite app_nil_r. destruct rt; reflexivity.
  - unfold bind, emit. rewrite IH. simpl. rewrite <- app_assoc. reflexivity.
Qed.

Lemma notify_run (rt : Runtime) :
  notify rt =
  (Ok tt, {| this := this rt;
             trace := trace rt ++ map ECall (listeners (this rt)) |}).
Proof. unfold notify, bind, gets. apply forEach_calls. Qed.

Lemma replaceState_run (v : value) (rt : Runtime) :
  replaceState v rt =
  (Ok tt, {| this := set_state v (this rt);
             trace := trace rt ++ ESetState v
                        :: map ECall (listeners (this rt)) |}).
Proof.
  unfold replaceState, bind, emit, modify. simpl.
  rewrite notify_run. simpl. rewrite <- app_assoc. reflexivity.
Qed.

Lemma applyPatch_run (d : value) (rt : Runtime) :
  applyPatch d rt =
  (Ok tt,
   {| this := set_state (patchStrategy (this rt) (state (this rt)) d) (this rt);
      trace := trace rt ++
        patchTrace (patchStrategy (this rt)) (listeners (this rt))
                   (state (this rt)) [d] |}).
Proof.
  unfold applyPatch, bind, gets, emit, modify. simpl.
  rewrite notify_run. simpl. rewrite app_nil_r, <- !app_assoc. reflexivity.
Qed.

Lemma forEach_applyPatch (ds : list value) (rt : Runtime) :
  forEach ds applyPatch rt =
  (Ok tt,
   {| this := match ds with
              | [] => this rt
              | _ => set_state (fold_left (patchStrategy (this rt)) ds
                                          (state (this rt))) (this rt)
              end;
      trace := trace rt ++
        patchTrace (patchStrategy (this rt)) (listeners (this rt))
                   (state (this rt)) ds |}).
Proof.
  revert rt. induction ds as [|d ds IH]; intros rt; simpl.
  - unfold ret. rewrite app_nil_r. destruct rt; reflexivity.
  - unfold bind. rewrite applyPatch_run, IH. simpl.
    rewrite app_nil_r, <- app_assoc. simpl.
    destruct ds; reflexivity.
Qed.


(** ** Readiness *)

Lemma resolutions_app (tr tr' : Trace) :
  resolutions (tr ++ tr') = resolutions tr + resolutions tr'.
Proof.
  induction tr as [|e tr IH]; simpl; [reflexivity|].
  destruct e; simpl; rewrite IH; reflexivity.
Qed.

Lemma patches_app (tr tr' : Trace) :
  patches (tr ++ tr') = patches tr ++ patches tr'.
Proof.
  induction tr as [|e tr IH]; simpl; [reflexivity|].
  destruct e; simpl; rewrite IH; reflexivity.
Qed.

(** *** Lifting a preorder on states through the monad *)

Section Respects.

Variable R : Runtime -> Runtime -> Prop.
Hypothesis R_refl : forall rt, R rt rt.
Hypothesis R_trans : forall a b c, R a b -> R b c -> R a c.

Lemma respects_ret {A : Type} (a : A) : respects R (ret a).
Proof. intros rt. apply R_refl. Qed.

Lemma respects_throw {A : Type} (e : exn) : respects R (throw (A := A) e).
Proof. intros rt. apply R_refl. Qed.

Lemma respects_lift {A : Type} (r : res A) : respects R (lift r).
Proof. intros rt. apply R_refl. Qed.

Lemma respects_gets {A : Type} (f : Store -> A) : respects R (gets f).
Proof. intros rt. apply R_refl. Qed.

Lemma respects_bind {A B : Type} (m : M Runtime A) (k : A -> M Runtime B) :
  respects R m -> (forall a, respects R (k a)) -> respects R (bind m k).
Proof.
  intros Hm Hk rt. unfold bind. specialize (Hm rt).
  destruct (m rt) as [[a|e] rt']; simpl in *; [|exact Hm].
  eapply R_trans; [exact Hm | apply Hk].
Qed.

Lemma respects_forEach {A : Type} (xs : list A) (f : A -> M Runtime unit) :
  (forall x, respects R (f x)) -> respects R (forEach xs f).
Proof.
  intros Hf. induction xs as [|x xs IH]; simpl.
  - apply respects_ret.
  - apply respects_bind; auto.
Qed.

End Respects.

Lemma Keeps_refl (rt : Runtime) : Keeps rt rt.
Proof. split; auto. Qed.

Lemma Keeps_trans (a b c : Runtime) : Keeps a b -> Keeps b c -> Keeps a c.
Proof.
  intros [I1 S1] [I2 S2]. split; [auto|].
  intros H. destruct (S1 H) as (R1 & P1 & C1).
  destruct (S2 R1) as (R2 & P2 & C2). repeat split; congruence.
Qed.

Lemma Quiet_refl (rt : Runtime) : Quiet rt rt.
Proof.
  intros H. repeat split; auto. exists []. rewrite app_nil_r. reflexivity.
Qed.

Lemma Quiet_trans (a b c : Runtime) : Quiet a b -> Quiet b c -> Quiet a c.
Proof.
  intros Hab Hbc Hc. destruct (Hbc Hc) as (Rb & Pb & m2 & Sb).
  destruct (Hab Rb) as (Ra & Pa & m1 & Sa). repeat split; [assumption|congruence|].
  exists (m1 ++ m2). rewrite Sb, Sa, app_assoc. reflexivity.
Qed.

Lemma Keeps_emit (e : effect) : e <> EReadyResolve -> respects Keeps (emit e).
Proof.
  intros He rt. unfold emit, Keeps, Inv. simpl.
  rewrite resolutions_app.
  assert (resolutions [e] = 0) as -> by (destruct e; simpl; congruence).
  rewrite Nat.add_0_r. split; auto.
Qed.

Lemma Quiet_emit (e : effect) :
  (forall current diff, e <> EPatchStrategy current diff) ->
  respects Quiet (emit e).
Proof.
  intros He rt. unfold emit, Quiet. simpl. intros H.
  rewrite patches_app.
  assert (patches [e] = []) as ->
    by (destruct e; simpl; try reflexivity; exfalso; eapply He; reflexivity).
  rewrite app_nil_r. repeat split; auto.
  exists []. rewrite app_nil_r. reflexivity.
Qed.

Lemma Keeps_modify (f : Store -> Store) :
  readiness_free f -> respects Keeps (modify f).
Proof.
  intros Hf rt. unfold modify, Keeps, Inv. simpl.
  destruct (Hf (this rt)) as [-> ->]. split; auto.
Qed.

Lemma Quiet_modify (f : Store -> Store) :
  queue_free f -> respects Quiet (modify f).
Proof.
  intros Hf rt. unfold modify, Quiet. simpl. intros H.
  destruct (Hf (this rt) H) as [Hr Hs]. auto.
Qed.

Lemma readiness_free_set_state (v : value) : readiness_free (set_state v).
Proof. intros s. split; reflexivity. Qed.

Lemma readiness_free_set_listeners (f : Store -> list listener) :
  readiness_free (fun s => set_listeners (f s) s).
Proof. intros s. split; reflexivity. Qed.

Lemma readiness_free_set_suspended (f : Store -> list value) :
  readiness_free (fun s => set_suspended (f s) s).
Proof. intros s. split; reflexivity. Qed.

Lemma queue_free_set_state (v : value) : queue_free (set_state v).
Proof.
  intros s H. split; [exact H|]. exists []. simpl. rewrite app_nil_r.
  reflexivity.
Qed.

Lemma queue_free_set_listeners (f : Store -> list listener) :
  queue_free (fun s => set_listeners (f s) s).
Proof.
  intros s H. split; [exact H|]. exists []. simpl. rewrite app_nil_r.
  reflexivity.
Qed.

Lemma queue_free_suspend (d : value) :
  queue_free (fun s => set_suspended (suspended s ++ [d]) s).
Proof. intros s H. split; [exact H|]. exists [d]. reflexivity. Qed.

Lemma queue_free_set_readyResolved : queue_free (set_readyResolved true).
Proof. intros s H. discriminate. Qed.

Lemma queue_free_fulfil (v : value) : queue_free (fulfil v).
Proof.
  intros s H. unfold fulfil in *.
  destruct (readyPromise s); (split; [exact H|]); exists [];
    simpl; rewrite app_nil_r; reflexivity.
Qed.

Create HintDb respects.
#[local] Hint Resolve Keeps_refl Quiet_refl
  respects_ret respects_throw respects_lift respects_gets
  Keeps_modify Quiet_modify
  readiness_free_set_state readiness_free_set_listeners
  readiness_free_set_suspended queue_free_set_state queue_free_set_listeners
  queue_free_suspend queue_free_set_readyResolved queue_free_fulfil
  : respects.
#[local] Hint Extern 1 (respects Keeps (emit _)) =>
  apply Keeps_emit; discriminate : respects.
#[local] Hint Extern 1 (respects Quiet (emit _)) =>
  apply Quiet_emit; discriminate : respects.
#[local] Hint Extern 2 (respects Keeps (bind _ _)) =>
  apply (respects_bind Keeps_trans); [|intros] : respects.
#[local] Hint Extern 2 (respects Quiet (bind _ _)) =>
  apply (respects_bind Quiet_trans); [|intros] : respects.
#[local] Hint Extern 2 (respects Keeps (forEach _ _)) =>
  apply (respects_forEach Keeps_refl Keeps_trans); intros : respects.
#[local] Hint Extern 2 (respects Quiet (forEach _ _)) =>
  apply (respects_forEach Quiet_refl Quiet_trans); intros : respects.
#[local] Hint Extern 3 (respects _ (if ?b then _ else _)) =>
  destruct b : respects.
#[local] Hint Extern 3 (respects _ (match ?x with _ => _ end)) =>
  destruct x : respects.

(** Every method but the two that act on readiness has both properties. *)
Lemma respects_notify (R : Runtime -> Runtime -> Prop) :
  R = Keeps \/ R = Quiet -> respects R notify.
Proof. intros [-> | ->]; unfold notify; auto with respects. Qed.

Lemma respects_replaceState (R : Runtime -> Runtime -> Prop) (v : value) :
  R = Keeps \/ R = Quiet -> respects R (replaceState v).
Proof.
  intros H. pose proof (respects_notify H).
  destruct H as [-> | ->]; unfold replaceState; auto with respects.
Qed.

Lemma Keeps_applyPatch (d : value) : respects Keeps (applyPatch d).
Proof.
  unfold applyPatch. pose proof (respects_notify (or_introl eq_refl)).
  auto 8 with respects.
Qed.

Lemma Keeps_patchState (d : value) : respects Keeps (patchState d).
Proof.
  unfold patchState. pose proof (Keeps_applyPatch d).
  apply (respects_bind Keeps_trans); [auto with respects|]. intros ready.
  destruct (negb ready); [|assumption].
  apply Keeps_modify.
  exact (readiness_free_set_suspended (fun s => suspended s ++ [d])).
Qed.

Lemma Quiet_patchState (d : value) : respects Quiet (patchState d).
Proof.
  intros rt. unfold patchState, bind, gets. simpl.
  destruct (readyResolved (this rt)) eqn:R; simpl.
  - rewrite applyPatch_run. unfold Quiet. simpl. congruence.
  - apply (Quiet_modify (queue_free_suspend d)).
Qed.

Lemma Keeps_resume : respects Keeps resume.
Proof.
  unfold resume. apply (respects_bind Keeps_trans); [auto with respects|].
  intros [|v].
  - auto with respects.
  - apply (respects_bind Keeps_trans); [auto with respects|]. intros ds.
    apply (respects_bind Keeps_trans).
    + apply Keeps_modify.
      exact (readiness_free_set_suspended (fun _ => [])).
    + intros _. apply (respects_forEach Keeps_refl Keeps_trans).
      apply Keeps_applyPatch.
Qed.

Lemma Quiet_resume (rt : Runtime) : Inv rt -> Quiet rt (snd (resume rt)).
Proof.
  intros I. unfold resume, bind, gets, modify. simpl.
  destruct (readyPromise (this rt)) eqn:P; simpl; [apply Quiet_refl|].
  rewrite forEach_applyPatch. simpl. unfold Inv in I.
  destruct (readyResolved (this rt)) eqn:R; [|destruct I; congruence].
  intros H. destruct (suspended (this rt)); simpl in H; congruence.
Qed.

Lemma Keeps_resolveOnce : respects Keeps resolveOnce.
Proof.
  intros rt. unfold resolveOnce, readyResolve, fulfil, bind, gets, modify, emit.
  unfold Keeps, Inv. simpl.
  destruct (readyResolved (this rt)) eqn:R; simpl.
  - rewrite R. split; auto.
  - split; [|discriminate].
    intros [-> C]. simpl. rewrite resolutions_app, C. split; reflexivity.
Qed.

Lemma Quiet_resolveOnce : respects Quiet resolveOnce.
Proof. unfold resolveOnce, readyResolve. auto 8 with respects. Qed.

Lemma respects_resolveOnce (R : Runtime -> Runtime -> Prop) :
  R = Keeps \/ R = Quiet -> respects R resolveOnce.
Proof.
  intros [-> | ->]; [apply Keeps_resolveOnce | apply Quiet_resolveOnce].
Qed.

Lemma respects_patchState (R : Runtime -> Runtime -> Prop) (d : value) :
  R = Keeps \/ R = Quiet -> respects R (patchState d).
Proof.
  intros [-> | ->]; [apply Keeps_patchState | apply Quiet_patchState].
Qed.

Lemma respects_handle (R : Runtime -> Runtime -> Prop) (e : Event) :
  R = Keeps \/ R = Quiet -> respects R (handle e).
Proof.
  intros H.
  pose proof (respects_resolveOnce H). pose proof (respects_replaceState).
  pose proof (fun d => respects_patchState d H).
  assert (forall v, respects R (replaceState v)) by auto.
  destruct H as [-> | ->]; destruct e; simpl;
    unfold onMessage, withDeserializer, shouldDeserialize, portListener,
      initializeStore, subscribe, unsubscribe, getState, replaceReducer,
      dispatch, dispatchCallback;
    auto 20 with respects.
Qed.

Lemma Keeps_task (e : Event) (rt : Runtime) : Keeps rt (task e rt).
Proof.
  unfold task. eapply Keeps_trans;
    [apply (respects_handle e (or_introl eq_refl)) | apply Keeps_resume].
Qed.

Lemma Keeps_run (events : list Event) (rt : Runtime) :
  Keeps rt (run events rt).
Proof.
  revert rt. induction events as [|e events IH]; intros rt; simpl.
  - apply Keeps_refl.
  - eapply Keeps_trans; [apply Keeps_task | apply IH].
Qed.

Lemma Quiet_task (e : Event) (rt : Runtime) : Inv rt -> Quiet rt (task e rt).
Proof.
  intros I. unfold task. eapply Quiet_trans.
  - apply (respects_handle e (or_intror eq_refl)).
  - apply Quiet_resume.
    apply (respects_handle e (or_introl eq_refl) rt). exact I.
Qed.

Lemma Quiet_run (events : list Event) (rt : Runtime) :
  Inv rt -> Quiet rt (run events rt).
Proof.
  revert rt. induction events as [|e events IH]; intros rt I; simpl.
  - apply Quiet_refl.
  - eapply Quiet_trans; [apply Quiet_task; exact I|].
    apply IH. apply (Keeps_task e rt). exact I.
Qed.

(** A constructed instance: what the constructor returns and what it did. *)
Lemma Store_constructor_ok (options : option Options) (tr0 tr : Trace)
    (s : Store) :
  Store_constructor options tr0 = (Ok s, tr) ->
  truthy (channelName s) = true /\
  readyResolved s = false /\ readyPromise s = Pending /\
  listeners s = [] /\ suspended s = [] /\
  tr = tr0 ++ [ESendMessage (VObj [("type", VStr FETCH_STATE_TYPE);
                                   ("channelName", channelName s)]);
               EAddListener].
Proof.
  unfold Store_constructor.
  set (o := match options with Some o => o | None => defaultOpts end).
  destruct (truthy (default_value (opt_channelName o)
                                  (opt_channelName defaultOpts))) eqn:T;
    simpl; [|discriminate].
  destruct (default_arg (opt_serializer o) _); [discriminate|].
  destruct (default_arg (opt_deserializer o) _); [discriminate|].
  destruct (default_arg (opt_patchStrategy o) shallowDiff); [discriminate|].
  unfold bind, emit0, ret. simpl. intros H. injection H as <- <-. simpl.
  rewrite <- app_assoc. repeat split; auto.
Qed.

Lemma Inv_new (options : option Options) (s : Store) (tr : Trace) :
  Store_constructor options [] = (Ok s, tr) ->
  Inv {| this := s; trace := tr |}.
Proof.
  intros H. apply Store_constructor_ok in H.
  destruct H as (_ & R & P & _ & _ & ->). unfold Inv. simpl.
  rewrite R. split; [exact P | reflexivity].
Qed.

Lemma Reachable_Inv (rt : Runtime) : Reachable rt -> Inv rt.
Proof.
  induction 1 as [options s tr H | e rt _ IH].
  - eapply Inv_new; eassumption.
  - apply (Keeps_task e rt); assumption.
Qed.

(** C1.  The readiness signal resolves at most once per instance: after any
    sequence of events on a constructed instance, [readyResolve] has been
    called at most once, exactly once when the promise is fulfilled; and once
    the promise is fulfilled, no later sequence of events changes its result
    or calls [readyResolve] again. *)
Theorem readiness_resolves_at_most_once
    (options : option Options) (s : Store) (tr : Trace)
    (events later : list Event) :
  Store_constructor options [] = (Ok s, tr) ->
  let rt := run events {| this := s; trace := tr |} in
  let rt' := run later rt in
  resolutions (trace rt) <= 1 /\
  (resolutions (trace rt) = 1 <->
   readyPromise (this rt) = Fulfilled VUndefined) /\
  (readyPromise (this rt) <> Pending ->
   readyPromise (this rt') = readyPromise (this rt) /\
   resolutions (trace rt') = resolutions (trace rt)).
Proof.
  intros Hnew rt rt'.
  assert (Inv rt) as I.
  { apply (Keeps_run events {| this := s; trace := tr |}).
    eapply Inv_new; eassumption. }
  pose proof (Keeps_run later rt) as [_ K]. fold rt' in K.
  unfold Inv in I. destruct (readyResolved (this rt)) eqn:R.
  - destruct I as [P C]. destruct (K eq_refl) as (_ & P' & C').
    rewrite C, P in *. split; [lia|]. split; [tauto|]. intros _. tauto.
  - destruct I as [P C]. rewrite C, P. split; [lia|]. split.
    + split; discriminate.
    + intros H. congruence.
Qed.

(** ** Construction *)

(** C8.  The constructor throws exactly when the channel name, after its
    default, is falsy (empty or missing) or when one of serializer,
    deserializer and patchStrategy, after its default, is not a function.
    When it throws it has done nothing (the trace is as before: no message
    sent, no listener registered) and returns no instance; otherwise it
    returns the instance, in its initial state, after sending the
    FETCH_STATE request and registering the listener. *)
Theorem construction_throws_exactly_on_bad_configuration
    (options : option Options) (tr : Trace) :
  let o := match options with Some o => o | None => defaultOpts end in
  let name := default_value (opt_channelName o) (VStr DEFAULT_CHANNEL_NAME) in
  let ser := default_arg (opt_serializer o)
                         (fun payload => Ok (noop payload)) in
  let des := default_arg (opt_deserializer o)
                         (fun payload => Ok (noop payload)) in
  let strategy := default_arg (opt_patchStrategy o) shallowDiff in
  if negb (truthy name) || negb (is_function ser) ||
     negb (is_function des) || negb (is_function strategy)
  then exists message,
         Store_constructor options tr = (Throw (Error message), tr)
  else exists s,
         Store_constructor options tr =
           (Ok s, tr ++ [ESendMessage (VObj [("type", VStr FETCH_STATE_TYPE);
                                             ("channelName", name)]);
                         EAddListener]) /\
         channelName s = name /\
         state s = default_value (opt_state o) (VObj []) /\
         Fun (serializer s) = ser /\
         Fun (deserializer s) = des /\
         Fun (patchStrategy s) = strategy /\
         readyResolved s = false /\ readyPromise s = Pending /\
         listeners s = [] /\ suspended s = [].
Proof.
  intros o name ser des strategy. unfold Store_constructor.
  fold o. change (opt_channelName defaultOpts) with (VStr DEFAULT_CHANNEL_NAME).
  fold name ser des strategy.
  destruct (truthy name); simpl; [|eexists; reflexivity].
  destruct ser as [v|f]; simpl; [eexists; reflexivity|].
  destruct des as [v|g]; simpl; [eexists; reflexivity|].
  destruct strategy as [v|h]; simpl; [eexists; reflexivity|].
  eexists. unfold bind, emit0, ret. simpl. rewrite <- app_assoc. simpl.
  repeat split; reflexivity.
Qed.


(** ** The two initialization paths *)

Lemma resolveOnce_run (rt : Runtime) :
  resolveOnce rt =
  (Ok tt,
   if readyResolved (this rt) then rt
   else {| this := fulfil VUndefined (set_readyResolved true (this rt));
           trace := trace rt ++ [EReadyResolve] |}).
Proof.
  unfold resolveOnce, readyResolve, bind, gets, modify, emit. simpl.
  destruct (readyResolved (this rt)); reflexivity.
Qed.

Lemma lookup_setPayload (k : string) (v : value)
    (fields : list (string * value)) :
  lookup k (setPayload v fields) =
  if k =? "payload" then v else lookup k fields.
Proof.
  induction fields as [|[k' w] fields IH].
  - simpl. destruct (k =? "payload"); reflexivity.
  - cbn [setPayload lookup]. destruct (k' =? "payload") eqn:E.
    + apply String.eqb_eq in E. subst k'. cbn [lookup].
      destruct (k =? "payload"); reflexivity.
    + cbn [lookup]. rewrite IH. destruct (k =? k') eqn:E'; [|reflexivity].
      apply String.eqb_eq in E'. subst k'. rewrite E. reflexivity.
Qed.

Lemma get_string_object (m : value) (k s : string) :
  get m k = Ok (VStr s) ->
  exists fields, m = VObj fields /\ lookup k fields = VStr s.
Proof.
  destruct m; simpl; try discriminate.
  intros H. injection H as H. eauto.
Qed.

Lemma get_object (fields : list (string * value)) (k : string) (v : value) :
  get (VObj fields) k = Ok v -> lookup k fields = v.
Proof. simpl. intros H. injection H as H. exact H. Qed.

(** What the port listener does with a STATE message of this channel. *)
Lemma portListener_state (rt : Runtime) (fields : list (string * value))
    (c : value) :
  lookup "type" fields = VStr STATE_TYPE ->
  lookup "channelName" fields = c ->
  strict_eq c (channelName (this rt)) = true ->
  portListener (VObj fields) rt =
  (Ok tt,
   let rt1 := {| this := set_state (lookup "payload" fields) (this rt);
                 trace := trace rt ++ ESetState (lookup "payload" fields)
                            :: map ECall (listeners (this rt)) |} in
   if readyResolved (this rt) then rt1
   else {| this := fulfil VUndefined (set_readyResolved true (this rt1));
           trace := trace rt1 ++ [EReadyResolve] |}).
Proof.
  intros T C E. unfold portListener, bind, lift, gets. simpl.
  rewrite C, E, T. simpl. rewrite String.eqb_refl.
  rewrite replaceState_run, resolveOnce_run. reflexivity.
Qed.

(** What [initializeStore] does with an answer of type FETCH_STATE whose
    payload the deserializer accepts. *)
Lemma initializeStore_run (rt : Runtime) (answer q w : value) :
  get answer "type" = Ok (VStr FETCH_STATE_TYPE) ->
  get answer "payload" = Ok q ->
  deserializer (this rt) q = Ok w ->
  initializeStore answer rt =
  (Ok tt,
   {| this :=
        if readyResolved (this rt) then set_state w (this rt)
        else fulfil VUndefined
               (set_readyResolved true (set_state w (this rt)));
      trace :=
        trace rt ++ [EDeserialize q] ++
        (ESetState w :: map ECall (listeners (this rt))) ++
        (if readyResolved (this rt) then [] else [EReadyResolve]) |}).
Proof.
  intros T P D.
  destruct (get_string_object _ _ T) as (fields & -> & Tf).
  apply get_object in P.
  unfold initializeStore, bind, gets, lift, emit. simpl.
  rewrite Tf, P. simpl. rewrite String.eqb_refl, D.
  rewrite replaceState_run. simpl. rewrite resolveOnce_run. simpl.
  destruct (readyResolved (this rt)); trace_eq.
Qed.

(** What the inbound listener does with a STATE message of this channel. *)
Lemma onMessage_state_run (rt : Runtime) (push c p v : value) :
  get push "type" = Ok (VStr STATE_TYPE) ->
  get push "channelName" = Ok c ->
  strict_eq c (channelName (this rt)) = true ->
  get push "payload" = Ok p ->
  (if payloadPresent p then deserializer (this rt) p = Ok v else v = p) ->
  onMessage push rt =
  (Ok tt,
   {| this :=
        if readyResolved (this rt) then set_state v (this rt)
        else fulfil VUndefined
               (set_readyResolved true (set_state v (this rt)));
      trace :=
        trace rt ++ (if payloadPresent p then [EDeserialize p] else []) ++
        (ESetState v :: map ECall (listeners (this rt))) ++
        (if readyResolved (this rt) then [] else [EReadyResolve]) |}).
Proof.
  intros T C E P D.
  destruct (get_string_object _ _ T) as (fields & -> & Tf).
  apply get_object in C, P.
  unfold onMessage, withDeserializer, shouldDeserialize, bind, gets, lift.
  simpl. rewrite Tf. simpl. rewrite C, E. simpl. rewrite P.
  destruct (payloadPresent p) eqn:PP.
  - unfold emit. simpl. rewrite D.
    rewrite portListener_state with (c := c); simpl;
      rewrite ?lookup_setPayload; simpl; auto.
    destruct (readyResolved (this rt)); trace_eq.
  - subst v. rewrite portListener_state with (c := c); auto.
    rewrite P. destruct (readyResolved (this rt)); trace_eq.
Qed.

(** C9.  Both initialization paths, the answer to the FETCH_STATE request and
    a STATE message of this channel, first call [replaceState] with the
    payload as the deserializer returns it (assignment, then every listener)
    and then, when readiness is not resolved yet, mark it resolved and call
    [readyResolve]: the trace of either path is that of [replaceState]
    followed by the call of [readyResolve], which is absent when readiness
    was resolved before. *)
Theorem both_paths_replace_then_resolve
    (rt : Runtime) (push answer c p q v w : value) :
  get push "type" = Ok (VStr STATE_TYPE) ->
  get push "channelName" = Ok c ->
  strict_eq c (channelName (this rt)) = true ->
  get push "payload" = Ok p ->
  (if payloadPresent p then deserializer (this rt) p = Ok v else v = p) ->
  get answer "type" = Ok (VStr FETCH_STATE_TYPE) ->
  get answer "payload" = Ok q ->
  deserializer (this rt) q = Ok w ->
  let after (pre : Trace) (x : value) : Runtime :=
    {| this :=
         if readyResolved (this rt) then set_state x (this rt)
         else fulfil VUndefined
                (set_readyResolved true (set_state x (this rt)));
       trace :=
         trace rt ++ pre ++
         (ESetState x :: map ECall (listeners (this rt))) ++
         (if readyResolved (this rt) then [] else [EReadyResolve]) |} in
  onMessage push rt =
    (Ok tt, after (if payloadPresent p then [EDeserialize p] else []) v) /\
  initializeStore answer rt = (Ok tt, after [EDeserialize q] w).
Proof.
  intros T C E P D T' P' D' after. split.
  - apply onMessage_state_run with (c := c); assumption.
  - apply initializeStore_run; assumption.
Qed.

(** ** Patches before readiness *)

Lemma resume_pending (rt : Runtime) :
  readyPromise (this rt) = Pending -> resume rt = (Ok tt, rt).
Proof. intros P. unfold resume, bind, gets. simpl. rewrite P. reflexivity. Qed.

Lemma resume_fulfilled (rt : Runtime) (v : value) :
  readyPromise (this rt) = Fulfilled v ->
  resume rt =
  (Ok tt,
   {| this :=
        set_suspended []
          (set_state (fold_left (patchStrategy (this rt)) (suspended (this rt))
                                (state (this rt))) (this rt));
      trace :=
        trace rt ++
        patchTrace (patchStrategy (this rt)) (listeners (this rt))
                   (state (this rt)) (suspended (this rt)) |}).
Proof.
  intros P. unfold resume, bind, gets, modify. simpl. rewrite P.
  rewrite forEach_applyPatch. simpl.
  destruct (suspended (this rt)); simpl; [|reflexivity].
  destruct rt as [[] ?]; reflexivity.
Qed.

(** The turn of a [patchState] call before readiness: the call is
    suspended and nothing else happens. *)
Lemma task_patchState_unready (rt : Runtime) (d : value) :
  Inv rt -> readyResolved (this rt) = false ->
  task (CallPatchState d) rt =
  {| this := set_suspended (suspended (this rt) ++ [d]) (this rt);
     trace := trace rt |}.
Proof.
  intros I R. unfold Inv in I. rewrite R in I. destruct I as [P _].
  unfold task. simpl. unfold patchState, bind, gets, modify. simpl.
  rewrite R. simpl. rewrite resume_pending; [reflexivity | exact P].
Qed.



(** ** The two mutation entry points *)

Lemma calls_app (tr tr' : Trace) : calls (tr ++ tr') = calls tr ++ calls tr'.
Proof.
  induction tr as [|e tr IH]; simpl; [reflexivity|].
  destruct e; simpl; rewrite IH; reflexivity.
Qed.

Lemma calls_map_ECall (ls : list listener) : calls (map ECall ls) = ls.
Proof. induction ls as [|l ls IH]; simpl; congruence. Qed.

Lemma Untouched_refl (rt : Runtime) : Untouched rt rt.
Proof. repeat split; auto. Qed.

Lemma Untouched_trans (a b c : Runtime) :
  Untouched a b -> Untouched b c -> Untouched a c.
Proof.
  intros (F1 & L1 & S1 & R1) (F2 & L2 & S2 & R2).
  repeat split; try congruence. auto.
Qed.

Lemma Untouched_emit (e : effect) :
  (forall l, e <> ECall l) -> respects Untouched (emit e).
Proof.
  intros He rt. unfold emit, Untouched, footprint. simpl.
  rewrite calls_app.
  assert (calls [e] = []) as ->
    by (destruct e; simpl; try reflexivity; exfalso; eapply He; reflexivity).
  rewrite app_nil_r. repeat split; auto.
Qed.

Lemma Untouched_modify (f : Store -> Store) :
  (forall s, state (f s) = state s /\ listeners (f s) = listeners s /\
             patchStrategy (f s) = patchStrategy s /\
             (readyResolved s = true -> readyResolved (f s) = true)) ->
  respects Untouched (modify f).
Proof.
  intros Hf rt. unfold modify, Untouched, footprint. simpl.
  destruct (Hf (this rt)) as (-> & -> & -> & R). repeat split; auto.
Qed.

Lemma Untouched_resolveOnce : respects Untouched resolveOnce.
Proof.
  intros rt. rewrite resolveOnce_run. simpl.
  destruct (readyResolved (this rt)); [apply Untouched_refl|].
  unfold Untouched, footprint, fulfil. simpl.
  rewrite calls_app, app_nil_r.
  destruct (readyPromise (this rt)); repeat split; auto.
Qed.

#[local] Hint Resolve Untouched_refl : respects.
#[local] Hint Extern 1 (respects Untouched (emit _)) =>
  apply Untouched_emit; discriminate : respects.
#[local] Hint Extern 2 (respects Untouched (bind _ _)) =>
  apply (respects_bind Untouched_trans); [|intros] : respects.

Lemma Untouched_dispatch (data : value) (reply : option Reply) :
  respects Untouched (dispatch data reply).
Proof. unfold dispatch, dispatchCallback. auto 16 with respects. Qed.

(** The footprint of the two entry points depends on the instance and on
    the calls so far only. *)
Lemma footprint_replaceState (v : value) (rt : Runtime) :
  footprint (snd (replaceState v rt)) =
  (v, calls (trace rt) ++ listeners (this rt)).
Proof.
  rewrite replaceState_run. unfold footprint. simpl.
  rewrite calls_app. simpl. rewrite calls_map_ECall. reflexivity.
Qed.

Lemma footprint_patchState (d : value) (rt : Runtime) :
  footprint (snd (patchState d rt)) =
  if readyResolved (this rt)
  then (patchStrategy (this rt) (state (this rt)) d,
        calls (trace rt) ++ listeners (this rt))
  else footprint rt.
Proof.
  unfold patchState, bind, gets, modify. simpl.
  destruct (readyResolved (this rt)); simpl; [|reflexivity].
  rewrite applyPatch_run. unfold footprint. simpl.
  rewrite calls_app. simpl. rewrite calls_app, calls_map_ECall. simpl.
  rewrite app_nil_r. reflexivity.
Qed.

Lemma entry_point_after (rt rt0 rt' : Runtime) :
  Untouched rt rt0 ->
  (readyResolved (this rt0) = true -> readyResolved (this rt) = true) ->
  mutates_as_entry_point rt0 rt' -> mutates_as_entry_point rt rt'.
Proof.
  intros (F & L & S & R) R' H. unfold mutates_as_entry_point in *.
  unfold footprint in F. injection F as Fs Fc.
  destruct H as [H | [[v H] | [d H]]].
  - left. rewrite H. unfold footprint. congruence.
  - right. left. exists v. rewrite H, !footprint_replaceState. congruence.
  - right. right. exists d. rewrite H, !footprint_patchState.
    destruct (readyResolved (this rt0)) eqn:E0.
    + rewrite (R' eq_refl). congruence.
    + destruct (readyResolved (this rt)) eqn:E.
      * discriminate (R eq_refl).
      * unfold footprint. congruence.
Qed.

Lemma replace_then_resolve_entry_point (v : value) (rt : Runtime) :
  mutates_as_entry_point rt (snd (bind (replaceState v) (fun _ => resolveOnce) rt)).
Proof.
  unfold bind. rewrite replaceState_run.
  match goal with |- context [resolveOnce ?r] =>
    pose proof (Untouched_resolveOnce r) as (F & _);
    destruct (resolveOnce r) as [[[]|e] rt2] end; simpl in *.
  - right. left. exists v. rewrite F, replaceState_run. reflexivity.
  - right. left. exists v. rewrite F, replaceState_run. reflexivity.
Qed.

Lemma portListener_entry_point (message : value) (rt : Runtime) :
  mutates_as_entry_point rt (snd (portListener message rt)).
Proof.
  unfold portListener.
  destruct (negb (truthy message)); [left; reflexivity|].
  unfold bind at 1. unfold lift at 1.
  destruct (get message "channelName") as [c|e]; [|left; reflexivity].
  unfold bind at 1. unfold gets at 1.
  destruct (negb (strict_eq c (channelName (this rt))));
    [left; reflexivity|].
  unfold bind at 1. unfold lift at 1.
  destruct (get message "type") as [t|e]; [|left; reflexivity].
  destruct (strict_eq t (VStr STATE_TYPE)).
  - unfold bind at 1. unfold lift at 1.
    destruct (get message "payload") as [p|e]; [|left; reflexivity].
    apply replace_then_resolve_entry_point.
  - destruct (strict_eq t (VStr PATCH_STATE_TYPE)); [|left; reflexivity].
    unfold bind at 1. unfold lift at 1.
    destruct (get message "payload") as [p|e]; [|left; reflexivity].
    right. right. exists p. reflexivity.
Qed.


Lemma shouldDeserialize_pure (message : value) (rt : Runtime) :
  snd (shouldDeserialize message rt) = rt.
Proof.
  unfold shouldDeserialize, bind, lift, gets, ret.
  destruct (truthy message); [|reflexivity].
  destruct (get message "type") as [t|e]; [|reflexivity].
  destruct (is_string t); [|reflexivity].
  destruct (get message "channelName"); reflexivity.
Qed.

Lemma Untouched_deserialize_attempt (p : value) (rt : Runtime) :
  Untouched rt {| this := this rt; trace := trace rt ++ [EDeserialize p] |}.
Proof. apply (@Untouched_emit (EDeserialize p)). discriminate. Qed.

Lemma onMessage_entry_point (message : value) (rt : Runtime) :
  mutates_as_entry_point rt (snd (onMessage message rt)).
Proof.
  unfold onMessage, withDeserializer. unfold bind at 1. unfold gets at 1.
  unfold bind at 1.
  pose proof (shouldDeserialize_pure message rt) as Hs.
  destruct (shouldDeserialize message rt) as [[should|e] rt0];
    simpl in Hs; subst rt0; [|left; reflexivity].
  destruct should; [|apply portListener_entry_point].
  unfold bind at 1. unfold lift at 1.
  destruct (get message "payload") as [p|e]; [|left; reflexivity].
  destruct (payloadPresent p); [|apply portListener_entry_point].
  unfold bind at 1. unfold emit at 1. unfold bind at 1. unfold lift at 1.
  pose proof (Untouched_deserialize_attempt p rt) as U.
  destruct (deserializer (this rt) p) as [p'|e].
  - eapply entry_point_after; [exact U | auto | apply portListener_entry_point].
  - left. apply U.
Qed.

Lemma initializeStore_entry_point (message : value) (rt : Runtime) :
  mutates_as_entry_point rt (snd (initializeStore message rt)).
Proof.
  unfold initializeStore.
  destruct (truthy message); [|left; reflexivity].
  unfold bind at 1. unfold lift at 1.
  destruct (get message "type") as [t|e]; [|left; reflexivity].
  destruct (strict_eq t (VStr FETCH_STATE_TYPE)); [|left; reflexivity].
  unfold bind at 1. unfold lift at 1.
  destruct (get message "payload") as [p|e]; [|left; reflexivity].
  unfold bind at 1. unfold gets at 1.
  unfold bind at 1. unfold emit at 1. unfold bind at 1. unfold lift at 1.
  pose proof (Untouched_deserialize_attempt p rt) as U.
  destruct (deserializer (this rt) p) as [w|e].
  - eapply entry_point_after;
      [exact U | auto | apply replace_then_resolve_entry_point].
  - left. apply U.
Qed.

Lemma handle_entry_point (e : Event) (rt : Runtime) :
  mutates_as_entry_point rt (snd (handle e rt)).
Proof.
  destruct e; simpl.
  - apply onMessage_entry_point.
  - apply initializeStore_entry_point.
  - left. reflexivity.
  - left. reflexivity.
  - left. reflexivity.
  - left. reflexivity.
  - right. left. exists state0. reflexivity.
  - right. right. exists difference. reflexivity.
  - left.
    pose proof (Untouched_dispatch data reply rt) as (F & _).
    unfold bind. destruct (dispatch data reply rt) as [[o|e] rt']; exact F.
Qed.


(** ** The listener registry *)

Lemma filter_absent (l : listener) (ls : list listener) :
  ~ In l ls -> filter (fun l' => negb (l' =? l)%nat) ls = ls.
Proof.
  induction ls as [|x ls IH]; simpl; [reflexivity|]. intros H.
  destruct (Nat.eqb_spec x l) as [->|Hx]; simpl.
  - exfalso. apply H. left. reflexivity.
  - rewrite IH; [reflexivity|]. intros Hin. apply H. right. exact Hin.
Qed.

Lemma filter_removed (l : listener) (ls : list listener) :
  ~ In l (filter (fun l' => negb (l' =? l)%nat) ls).
Proof.
  intros H. apply filter_In in H. destruct H as [_ H].
  rewrite Nat.eqb_refl in H. discriminate.
Qed.

(** C5, as the code has it.  [subscribe] appends the listener to the
    registry, whatever the registry holds, and returns the unsubscribe
    function.  That function removes every registration of the listener and
    no other: the rest of the registry stays, in its order.  It does nothing
    when the listener is not registered, so calling it again right away does
    nothing. *)
Theorem unsubscribe_removes_every_registration (rt : Runtime) (l : listener) :
  subscribe l rt =
    (Ok (unsubscribe l),
     {| this := set_listeners (listeners (this rt) ++ [l]) (this rt);
        trace := trace rt |}) /\
  unsubscribe l rt =
    (Ok tt,
     {| this := set_listeners
                  (filter (fun l' => negb (l' =? l)%nat) (listeners (this rt)))
                  (this rt);
        trace := trace rt |}) /\
  (forall l', In l' (listeners (this (snd (unsubscribe l rt)))) <->
              In l' (listeners (this rt)) /\ l' <> l) /\
  (~ In l (listeners (this rt)) -> unsubscribe l rt = (Ok tt, rt)) /\
  unsubscribe l (snd (unsubscribe l rt)) = (Ok tt, snd (unsubscribe l rt)).
Proof.
  split; [reflexivity|]. split; [reflexivity|]. split; [|split].
  - intros l'. unfold unsubscribe, modify. simpl. rewrite filter_In.
    destruct (Nat.eqb_spec l' l); simpl; intuition congruence.
  - intros H. unfold unsubscribe, modify. rewrite (@filter_absent l _ H).
    destruct rt as [[] ?]; reflexivity.
  - unfold unsubscribe, modify. simpl.
    rewrite (@filter_absent l _ (@filter_removed l (listeners (this rt)))).
    reflexivity.
Qed.


(** ** The inbound filter *)

Lemma portListener_other (rt : Runtime) (fields : list (string * value)) :
  strict_eq (lookup "type" fields) (VStr STATE_TYPE) = false ->
  strict_eq (lookup "type" fields) (VStr PATCH_STATE_TYPE) = false ->
  portListener (VObj fields) rt = (Ok tt, rt).
Proof.
  intros S P. unfold portListener, bind, lift, gets, ret. simpl.
  destruct (strict_eq (lookup "channelName" fields) (channelName (this rt)));
    simpl; [|reflexivity].
  rewrite S, P. reflexivity.
Qed.

(** C4, as the code has it.  An inbound message that is falsy, or whose
    channel name is not the instance's, or whose type is not a string, is
    dropped at once: nothing is deserialized, nothing is assigned, no
    listener is called, the instance and the trace are as before.  A message
    of this channel whose type is a string other than STATE and PATCH_STATE
    leaves the instance as it is as well, but its payload is first handed to
    the deserializer whenever the serialization boundary finds a payload to
    transform ([payloadPresent]); when it finds none the message is dropped
    with no deserialization, like the others.  A STATE or PATCH_STATE
    message of this channel acts as a call of [replaceState] or of
    [patchState]. *)
Theorem inbound_filter (rt : Runtime) (m : value) :
  match get m "channelName", get m "type", get m "payload" with
  | Ok c, Ok t, Ok p =>
      if negb (truthy m) || negb (strict_eq c (channelName (this rt)))
         || negb (is_string t)
      then onMessage m rt = (Ok tt, rt)
      else if strict_eq t (VStr STATE_TYPE) ||
              strict_eq t (VStr PATCH_STATE_TYPE)
      then mutates_as_entry_point rt (snd (onMessage m rt))
      else snd (onMessage m rt) =
           {| this := this rt;
              trace := trace rt ++
                       if payloadPresent p then [EDeserialize p] else [] |}
  | _, _, _ => onMessage m rt = (Ok tt, rt)
  end.
Proof.
  destruct m as [| |b|n| |s|fields]; simpl;
    try reflexivity; rewrite ?orb_true_r;
    try (unfold onMessage, withDeserializer, shouldDeserialize, portListener,
           bind, lift, gets, ret; simpl;
         repeat match goal with
                | |- context [if ?b then _ else _] => destruct b; simpl
                end; reflexivity).
  destruct (strict_eq (lookup "channelName" fields) (channelName (this rt)))
    eqn:C; simpl.
  - destruct (is_string (lookup "type" fields)) eqn:T; simpl.
    + destruct (strict_eq (lookup "type" fields) (VStr STATE_TYPE)) eqn:S;
        [apply onMessage_entry_point|].
      destruct (strict_eq (lookup "type" fields) (VStr PATCH_STATE_TYPE))
        eqn:P; [apply onMessage_entry_point|]. simpl.
      unfold onMessage, withDeserializer, shouldDeserialize, bind, lift, gets,
        ret, emit. simpl. rewrite T. simpl. rewrite C. simpl.
      destruct (payloadPresent (lookup "payload" fields)); simpl.
      * destruct (deserializer (this rt) (lookup "payload" fields)) as [p'|e];
          [|reflexivity].
        rewrite portListener_other; [reflexivity | |];
          rewrite lookup_setPayload; simpl; assumption.
      * rewrite portListener_other by assumption. simpl.
        rewrite app_nil_r. destruct rt; reflexivity.
    + unfold onMessage, withDeserializer, shouldDeserialize, bind, lift, gets,
        ret. simpl. rewrite T.
      apply portListener_other; destruct (lookup "type" fields);
        simpl in *; congruence.
  - unfold onMessage, withDeserializer, shouldDeserialize, portListener, bind,
      lift, gets, ret. simpl.
    destruct (is_string (lookup "type" fields)); simpl; rewrite ?C; simpl;
      rewrite ?C; reflexivity.
Qed.

(** ** Dispatch *)

Lemma get_truthy (v : value) (k : string) :
  truthy v = true -> exists x, get v k = Ok x.
Proof. destruct v; simpl; try discriminate; eauto. Qed.

(** The callback of [dispatch], case by case. *)
Lemma dispatchCallback_run (r : Reply) (rt : Runtime) :
  dispatchCallback r rt =
  if negb (truthy (resp r)) then
    (Ok (Rejected (assignIn (new_Error (backgroundErrPrefix ++
                                        toStr (lastError r)))
                            (lastError r))), rt)
  else
    match get (resp r) "error", get (resp r) "value" with
    | Ok error, Ok raw =>
        let rt' := {| this := this rt;
                      trace := trace rt ++ [EDeserialize raw] |} in
        let value := match deserializer (this rt) raw with
                     | Ok v => v
                     | Throw _ => raw
                     end in
        if truthy error then
          (Ok (Rejected (assignIn (new_Error (backgroundErrPrefix ++
                                              toStr error)) error)), rt')
        else if truthy value then
          match get value "payload" with
          | Ok payload => (Ok (Resolved payload), rt')
          | Throw e => (Throw e, rt')
          end
        else (Ok (Resolved value), rt')
    | Throw e, _ => (Throw e, rt)
    | Ok _, Throw e => (Throw e, rt)
    end.
Proof.
  unfold dispatchCallback, bind, lift, gets, emit, ret.
  destruct (negb (truthy (resp r))); [reflexivity|].
  destruct (get (resp r) "error") as [error|e]; [|reflexivity].
  destruct (get (resp r) "value") as [raw|e]; [|reflexivity]. simpl.
  destruct (truthy error); [reflexivity|].
  destruct (truthy _); [|reflexivity].
  destruct (get _ "payload"); reflexivity.
Qed.

Lemma dispatch_run (data : value) (reply : option Reply) (rt : Runtime) :
  dispatch data reply rt =
  match dispatchMessage (this rt) data with
  | Throw e => (Ok (RejectedThrown e), rt)
  | Ok message =>
      let rt' := {| this := this rt;
                    trace := trace rt ++ [ESendMessage message] |} in
      match reply with
      | None => (Ok Unsettled, rt')
      | Some r => dispatchCallback r rt'
      end
  end.
Proof.
  unfold dispatch, bind, gets, emit, ret. simpl.
  destruct (dispatchMessage (this rt) data); [|reflexivity].
  destruct reply; reflexivity.
Qed.

(** *** What [assignIn] leaves of the error *)

Lemma lookup_setKey (k k' : string) (v : value)
    (fields : list (string * value)) :
  lookup k (setKey k' v fields) = if k =? k' then v else lookup k fields.
Proof.
  induction fields as [|[k0 w] fields IH]; simpl.
  - rewrite (String.eqb_sym k k'). destruct (k' =? k); reflexivity.
  - destruct (String.eqb_spec k' k0) as [->|N]; simpl.
    + destruct (k =? k0); reflexivity.
    + rewrite IH. destruct (String.eqb_spec k k0) as [->|N'];
        [|reflexivity].
      destruct (String.eqb_spec k0 k'); [congruence | reflexivity].
Qed.

Lemma fold_assign_message (kvs : list (string * value)) (e : ErrorObj)
    (m : value) :
  (forall kv, In kv kvs -> fst kv = "message" -> snd kv = m) ->
  message (fold_left (fun e kv => assignValue e (fst kv) (snd kv)) kvs e) =
  if existsb (fun kv => fst kv =? "message") kvs then m else message e.
Proof.
  revert e. induction kvs as [|[k v] kvs IH]; intros e H; simpl;
    [reflexivity|].
  rewrite IH by (intros kv Hin; apply H; right; exact Hin).
  unfold assignValue. destruct (String.eqb_spec k "message") as [->|N]; simpl.
  - assert (v = m) as ->
      by exact (H ("message", v) (or_introl eq_refl) eq_refl).
    destruct (existsb _ kvs); reflexivity.
  - reflexivity.
Qed.

Lemma fold_assign_own (kvs : list (string * value)) (e : ErrorObj)
    (k : string) (x : value) :
  k <> "message" ->
  (forall kv, In kv kvs -> fst kv = k -> snd kv = x) ->
  lookup k (own (fold_left (fun e kv => assignValue e (fst kv) (snd kv))
                           kvs e)) =
  if existsb (fun kv => fst kv =? k) kvs then x else lookup k (own e).
Proof.
  intros Hk. revert e. induction kvs as [|[k' v] kvs IH]; intros e H;
    [reflexivity|].
  cbn [fold_left existsb fst snd].
  rewrite IH by (intros kv Hin; apply H; right; exact Hin).
  unfold assignValue. destruct (String.eqb_spec k' "message") as [->|N].
  - cbn [own]. destruct (String.eqb_spec "message" k) as [E|_];
      [congruence | reflexivity].
  - cbn [own]. rewrite lookup_setKey, (String.eqb_sym k' k).
    destruct (String.eqb_spec k k') as [<-|N']; cbn [orb]; [|reflexivity].
    assert (v = x) as -> by exact (H (k, v) (or_introl eq_refl) eq_refl).
    destruct (existsb _ kvs); reflexivity.
Qed.

Lemma existsb_map_keys (k : string) (f : string * value -> value)
    (fields : list (string * value)) :
  existsb (fun kv => fst kv =? k) (map (fun kv => (fst kv, f kv)) fields) =
  existsb (fun kv => fst kv =? k) fields.
Proof.
  induction fields as [|kv rest IH]; simpl; [reflexivity|].
  rewrite IH. reflexivity.
Qed.

Lemma existsb_enumerable (k : string) (fields : list (string * value)) :
  existsb (fun kv => fst kv =? k) (enumerable (VObj fields)) =
  existsb (fun kv => fst kv =? k) fields.
Proof.
  exact (existsb_map_keys k (fun kv => lookup (fst kv) fields) fields).
Qed.

Lemma enumerable_value (fields : list (string * value))
    (kv : string * value) (k : string) :
  In kv (enumerable (VObj fields)) -> fst kv = k -> snd kv = lookup k fields.
Proof.
  simpl. intros H <-. apply in_map_iff in H.
  destruct H as (kv' & <- & _). reflexivity.
Qed.

Lemma lookup_no_key (k : string) (fields : list (string * value)) :
  existsb (fun kv => fst kv =? k) fields = false ->
  lookup k fields = VUndefined.
Proof.
  induction fields as [|[k' v] fields IH]; simpl; [reflexivity|].
  rewrite (String.eqb_sym k' k).
  destruct (k =? k'); simpl; [discriminate | exact IH].
Qed.

Lemma index_key_not_message (i : nat) : index_key i <> "message".
Proof.
  unfold index_key, NilZero.string_of_uint.
  destruct (Nat.to_uint i); simpl; discriminate.
Qed.

Lemma no_message_among_indices (s : string) :
  existsb (fun kv => fst kv =? "message") (enumerable (VStr s)) = false.
Proof.
  simpl. generalize (chars s). generalize 0.
  induction (String.length s) as [|n IH]; intros start cs; simpl;
    [reflexivity|].
  destruct cs as [|c cs]; simpl; [reflexivity|].
  destruct (String.eqb_spec (index_key start) "message") as [E|_].
  - exfalso. exact (@index_key_not_message start E).
  - apply IH.
Qed.

(** The message of the error [dispatch] rejects with: the prefix followed
    by the detail, unless the detail is an object with a [message] of its
    own, which [assignIn] puts in its place. *)
Lemma rejection_message (error : value) :
  message (assignIn (new_Error (backgroundErrPrefix ++ toStr error)) error) =
  match error with
  | VObj fields =>
      if existsb (fun kv => fst kv =? "message") fields
      then lookup "message" fields
      else VStr (backgroundErrPrefix ++ toStr error)
  | _ => VStr (backgroundErrPrefix ++ toStr error)
  end.
Proof.
  unfold assignIn. destruct (truthy error) eqn:T;
    [|destruct error; simpl in *; try reflexivity; discriminate].
  rewrite fold_assign_message with (m := lookup "message"
    match error with VObj fields => fields | _ => [] end).
  - destruct error as [| |b|n| |s|fields]; try reflexivity.
    + rewrite no_message_among_indices. reflexivity.
    + rewrite existsb_enumerable. reflexivity.
  - intros kv Hin Hk. destruct error as [| |b|n| |s|fields];
      try (simpl in Hin; contradiction).
    + pose proof (no_message_among_indices s) as N.
      assert (existsb (fun kv => fst kv =? "message") (enumerable (VStr s))
              = true) as Y.
      { apply existsb_exists. exists kv. split; [exact Hin|].
        rewrite Hk. reflexivity. }
      congruence.
    + exact (@enumerable_value fields kv "message" Hin Hk).
Qed.

(** The other properties of the detail, when it is an object, are on the
    error. *)
Lemma rejection_properties (msg : string) (fields : list (string * value))
    (k : string) :
  k <> "message" ->
  lookup k (own (assignIn (new_Error msg) (VObj fields))) = lookup k fields.
Proof.
  intros Hk. unfold assignIn. cbn [truthy].
  rewrite fold_assign_own with (x := lookup k fields); [| exact Hk |].
  - rewrite existsb_enumerable.
    destruct (existsb _ fields) eqn:E; [reflexivity|].
    rewrite (@lookup_no_key k fields E). reflexivity.
  - intros kv Hin Hkv. exact (@enumerable_value fields kv k Hin Hkv).
Qed.

(** C6, as the code has it.  [dispatch] rejects in exactly three cases.
    When the serializer throws on the data, the promise is rejected with
    what it threw and nothing is sent.  When the transport calls back with a
    falsy response, the promise is rejected with the error made from the
    diagnostic prefix followed by the transport's last error, with that last
    error merged onto it.  When the response has a truthy [error] property,
    the promise is rejected with the error made from the prefix followed by
    that error, with the error merged onto it.  In every other case the
    promise is resolved, or stays unsettled when the transport never calls
    back.  The error keeps the message with the prefix unless the merged
    value is an object that has a [message] itself, which then takes its
    place; the other properties of a merged object are on the error. *)
Theorem dispatch_rejects_in_three_cases
    (rt : Runtime) (data : value) (reply : option Reply) :
  let outcome := fst (dispatch data reply rt) in
  let rejected (error : value) :=
    assignIn (new_Error (backgroundErrPrefix ++ toStr error)) error in
  match dispatchMessage (this rt) data with
  | Throw e =>
      outcome = Ok (RejectedThrown e) /\
      snd (dispatch data reply rt) = rt
  | Ok _ =>
      match reply with
      | None => outcome = Ok Unsettled
      | Some r =>
          if negb (truthy (resp r))
          then outcome = Ok (Rejected (rejected (lastError r)))
          else exists error,
                 get (resp r) "error" = Ok error /\
                 if truthy error
                 then outcome = Ok (Rejected (rejected error))
                 else exists v, outcome = Ok (Resolved v)
      end
  end /\
  forall error : value,
    match error with
    | VObj fields =>
        message (rejected error) =
          (if existsb (fun kv => fst kv =? "message") fields
           then lookup "message" fields
           else VStr (backgroundErrPrefix ++ toStr error)) /\
        forall k, k <> "message" ->
                  lookup k (own (rejected error)) = lookup k fields
    | _ => message (rejected error) =
           VStr (backgroundErrPrefix ++ toStr error)
    end.
Proof.
  intros outcome rejected. subst outcome. split.
  - rewrite dispatch_run.
    destruct (dispatchMessage (this rt) data) as [sent|e];
      [|split; reflexivity].
    simpl. destruct reply as [r|]; [|reflexivity].
    rewrite dispatchCallback_run.
    destruct (truthy (resp r)) eqn:T; simpl; [|reflexivity].
    destruct (get_truthy (resp r) "error" T) as [error ->].
    destruct (get_truthy (resp r) "value" T) as [raw ->].
    exists error. split; [reflexivity|].
    destruct (truthy error); [reflexivity|].
    match goal with |- context [truthy ?v] => destruct (truthy v) eqn:V end.
    + match type of V with truthy ?v = true =>
        destruct (get_truthy v "payload" V) as [payload ->] end.
      eexists. reflexivity.
    + eexists. reflexivity.
  - intros error. subst rejected. cbv beta.
    pose proof (rejection_message error) as M.
    destruct error as [| |b|n| |s|fields]; try exact M.
    split; [exact M|]. intros k Hk. apply rejection_properties. exact Hk.
Qed.

(** C7, as the code has it.  On a truthy response without a truthy [error],
    the callback of [dispatch] calls the deserializer on [response.value];
    when the deserializer throws, the raw value stands in and nothing is
    rejected.  The promise is resolved with [value.payload] when the value
    is truthy, [undefined] when the payload is absent, and with the value
    itself when it is falsy.  With the identity deserializer the response
    [{ value: { payload: 42 } }] resolves it with 42.  This holds of the
    callback on every response, and of [dispatch] whenever the message was
    sent, that is, the serializer returned, without which there is no
    response. *)
Theorem dispatch_resolves_with_payload
    (rt : Runtime) (data : value) (r : Reply) (error raw : value) :
  truthy (resp r) = true ->
  get (resp r) "error" = Ok error ->
  truthy error = false ->
  get (resp r) "value" = Ok raw ->
  let received := match deserializer (this rt) raw with
               | Ok v => v
               | Throw _ => raw
               end in
  (In (EDeserialize raw) (trace (snd (dispatchCallback r rt))) /\
   (truthy received = true ->
    exists payload,
      get received "payload" = Ok payload /\
      fst (dispatchCallback r rt) = Ok (Resolved payload)) /\
   (truthy received = false ->
    fst (dispatchCallback r rt) = Ok (Resolved received))) /\
  forall sent, dispatchMessage (this rt) data = Ok sent ->
  In (EDeserialize raw) (trace (snd (dispatch data (Some r) rt))) /\
  (truthy received = true ->
   exists payload,
     get received "payload" = Ok payload /\
     fst (dispatch data (Some r) rt) = Ok (Resolved payload)) /\
  (truthy received = false ->
   fst (dispatch data (Some r) rt) = Ok (Resolved received)) /\
  (resp r = VObj [("value", VObj [("payload", VNum 42)])] ->
   deserializer (this rt) = (fun payload => Ok (noop payload)) ->
   fst (dispatch data (Some r) rt) = Ok (Resolved (VNum 42))).
Proof.
  intros T E F V received.
  assert (forall rt',
    this rt' = this rt ->
    In (EDeserialize raw) (trace (snd (dispatchCallback r rt'))) /\
    (truthy received = true ->
     exists payload,
       get received "payload" = Ok payload /\
       fst (dispatchCallback r rt') = Ok (Resolved payload)) /\
    (truthy received = false ->
     fst (dispatchCallback r rt') = Ok (Resolved received))) as Hcb.
  { intros rt' Hrt. rewrite dispatchCallback_run.
    rewrite T, E, V, F, Hrt. simpl. fold received.
    split; [|split].
    - destruct (truthy received) eqn:Tv.
      + destruct (get_truthy received "payload" Tv) as [payload ->]. simpl.
        apply in_or_app. right. left. reflexivity.
      + simpl. apply in_or_app. right. left. reflexivity.
    - intros Tv. rewrite Tv.
      destruct (get_truthy received "payload" Tv) as [payload Hp].
      exists payload. rewrite Hp. split; reflexivity.
    - intros Tv. rewrite Tv. reflexivity. }
  split; [apply Hcb; reflexivity|].
  intros sent S. rewrite dispatch_run, S. cbv zeta.
  match goal with |- context [dispatchCallback r ?rt1] =>
    destruct (Hcb rt1 eq_refl) as (H1 & H2 & H3) end.
  split; [exact H1|]. split; [exact H2|]. split; [exact H3|].
  intros Hr Hd.
  assert (received = VObj [("payload", VNum 42)]) as Hrec.
  { subst received. rewrite Hr in V. simpl in V. injection V as <-.
    rewrite Hd. reflexivity. }
  rewrite Hrec in H2. destruct (H2 eq_refl) as (payload & Hp & Ho).
  simpl in Hp. injection Hp as <-. exact Ho.
Qed.

(** C10.  On a truthy response without a truthy [error] whose value, as
    deserialized or raw, is falsy, the promise of [dispatch] is resolved with
    that falsy value itself; [value.payload] is not read.  This holds of the
    callback on every response, and of [dispatch] whenever the message was
    sent, that is, the serializer returned, without which there is no
    response.  No call of [dispatch] throws, whatever the serializer does
    and whatever the transport answers: the property of a missing value is
    never read. *)
Theorem dispatch_resolves_with_falsy_value
    (rt : Runtime) (data : value) (r : Reply) (error raw : value) :
  truthy (resp r) = true ->
  get (resp r) "error" = Ok error ->
  truthy error = false ->
  get (resp r) "value" = Ok raw ->
  let received := match deserializer (this rt) raw with
               | Ok v => v
               | Throw _ => raw
               end in
  truthy received = false ->
  fst (dispatchCallback r rt) = Ok (Resolved received) /\
  (forall sent, dispatchMessage (this rt) data = Ok sent ->
     fst (dispatch data (Some r) rt) = Ok (Resolved received)) /\
  forall (data' : value) (reply : option Reply) (e : exn),
    fst (dispatch data' reply rt) <> Throw e.
Proof.
  intros T E F V received Tv. split; [|split].
  - rewrite dispatchCallback_run.
    rewrite T, E, V, F. simpl. fold received. rewrite Tv. reflexivity.
  - intros sent S. rewrite dispatch_run, S. simpl.
    rewrite dispatchCallback_run.
    rewrite T, E, V, F. simpl. fold received. rewrite Tv. reflexivity.
  - intros data' reply e. rewrite dispatch_run.
    destruct (dispatchMessage (this rt) data'); [|discriminate]. simpl.
    destruct reply as [r'|]; [|discriminate].
    rewrite dispatchCallback_run.
    destruct (truthy (resp r')) eqn:T'; simpl; [|discriminate].
    destruct (get_truthy (resp r') "error" T') as [error' ->].
    destruct (get_truthy (resp r') "value" T') as [raw' ->].
    destruct (truthy error'); [discriminate|].
    match goal with |- context [truthy ?v] => destruct (truthy v) eqn:V' end;
      [|discriminate].
    match type of V' with truthy ?v = true =>
      destruct (get_truthy v "payload" V') as [payload ->] end.
    discriminate.
Qed.

(** ** The answer to FETCH_STATE, case by case *)

Lemma strict_eq_string (t : value) (s : string) :
  strict_eq t (VStr s) = true -> t = VStr s.
Proof.
  destruct t; simpl; try discriminate.
  intros H. apply String.eqb_eq in H. congruence.
Qed.

(** [initializeStore] reads the type and the payload of the message and
    nothing else of it. *)
Lemma initializeStore_by_fields (rt : Runtime) (m : value) :
  initializeStore m rt =
  match get m "type", get m "payload" with
  | Ok t, Ok q =>
      if strict_eq t (VStr FETCH_STATE_TYPE) then
        match deserializer (this rt) q with
        | Ok w =>
            bind (replaceState w) (fun _ => resolveOnce)
                 {| this := this rt; trace := trace rt ++ [EDeserialize q] |}
        | Throw e =>
            (Throw e,
             {| this := this rt; trace := trace rt ++ [EDeserialize q] |})
        end
      else (Ok tt, rt)
  | _, _ => (Ok tt, rt)
  end.
Proof.
  destruct m as [| |b|n| |s|fields]; simpl; try reflexivity;
    try (unfold initializeStore, bind, lift, ret; simpl;
         match goal with |- context [if ?b then _ else _] => destruct b end;
         reflexivity).
Qed.

Lemma replace_then_resolve_ok (v : value) (rt : Runtime) :
  fst (bind (replaceState v) (fun _ => resolveOnce) rt) = Ok tt.
Proof.
  unfold bind. rewrite replaceState_run, resolveOnce_run. reflexivity.
Qed.

(** X1.  [initializeStore] does nothing with an answer that is falsy or
    whose type is not the FETCH_STATE type string: the instance and the
    trace stay as they are, readiness included. *)
Theorem initializeStore_ignores_other_answers (rt : Runtime) (m : value) :
  truthy m = false \/
  (exists t, get m "type" = Ok t /\
             strict_eq t (VStr FETCH_STATE_TYPE) = false) ->
  initializeStore m rt = (Ok tt, rt).
Proof.
  intros [F | (t & T & E)].
  - unfold initializeStore. rewrite F. reflexivity.
  - rewrite initializeStore_by_fields, T, E.
    destruct (get m "payload"); reflexivity.
Qed.

(** X2.  With listeners that return, [initializeStore] throws exactly when
    the answer has the FETCH_STATE type and the deserializer throws on its
    payload; it then throws what the deserializer threw, and the instance is
    as before: the state is not replaced, no listener is called and
    readiness is not resolved. *)
Theorem initializeStore_fails_with_the_deserializer
    (rt : Runtime) (m : value) (e : exn) :
  (fst (initializeStore m rt) = Throw e ->
   exists q, get m "type" = Ok (VStr FETCH_STATE_TYPE) /\
             get m "payload" = Ok q /\
             deserializer (this rt) q = Throw e) /\
  (forall q, get m "type" = Ok (VStr FETCH_STATE_TYPE) ->
             get m "payload" = Ok q ->
             deserializer (this rt) q = Throw e ->
             initializeStore m rt =
             (Throw e, {| this := this rt;
                          trace := trace rt ++ [EDeserialize q] |})).
Proof.
  rewrite initializeStore_by_fields. split.
  - destruct (get m "type") as [t|]; [|discriminate].
    destruct (get m "payload") as [q|]; [|discriminate].
    destruct (strict_eq t (VStr FETCH_STATE_TYPE)) eqn:E; [|discriminate].
    apply strict_eq_string in E. subst t.
    destruct (deserializer (this rt) q) as [w|e'] eqn:D.
    + rewrite replace_then_resolve_ok. discriminate.
    + simpl. intros H. injection H as <-. eauto.
  - intros q -> -> ->. simpl. rewrite String.eqb_refl. reflexivity.
Qed.

(** X3.  [initializeStore] never looks at the channel name of the answer:
    two answers with the same type and the same payload have the same
    effect, whatever else they hold. *)
Theorem initializeStore_reads_type_and_payload_only
    (rt : Runtime) (m1 m2 : value) :
  get m1 "type" = get m2 "type" ->
  get m1 "payload" = get m2 "payload" ->
  initializeStore m1 rt = initializeStore m2 rt.
Proof.
  intros T P. rewrite !initializeStore_by_fields, T, P. reflexivity.
Qed.

(** ** The inbound listener never reads a missing message *)

Lemma patchState_ok (d : value) (rt : Runtime) :
  fst (patchState d rt) = Ok tt.
Proof.
  unfold patchState, bind, gets, modify. simpl.
  destruct (readyResolved (this rt)); simpl; [|reflexivity].
  rewrite applyPatch_run. reflexivity.
Qed.

Lemma portListener_ok (m : value) (rt : Runtime) :
  fst (portListener m rt) = Ok tt.
Proof.
  unfold portListener.
  destruct (truthy m) eqn:T; simpl; [|reflexivity].
  destruct (get_truthy m "channelName" T) as [c C].
  destruct (get_truthy m "type" T) as [t Ty].
  destruct (get_truthy m "payload" T) as [p P].
  unfold bind at 1. unfold lift at 1. rewrite C.
  unfold bind at 1. unfold gets at 1.
  destruct (negb (strict_eq c (channelName (this rt)))); [reflexivity|].
  unfold bind at 1. unfold lift at 1. rewrite Ty.
  destruct (strict_eq t (VStr STATE_TYPE)).
  - unfold bind at 1. unfold lift at 1. rewrite P.
    apply replace_then_resolve_ok.
  - destruct (strict_eq t (VStr PATCH_STATE_TYPE)); [|reflexivity].
    unfold bind at 1. unfold lift at 1. rewrite P. apply patchState_ok.
Qed.

Lemma shouldDeserialize_run (m : value) (rt : Runtime) :
  shouldDeserialize m rt =
  (Ok match get m "type", get m "channelName" with
      | Ok t, Ok c =>
          truthy m && is_string t && strict_eq c (channelName (this rt))
      | _, _ => false
      end, rt).
Proof.
  destruct m as [| |b|n| |s|fields]; simpl; try reflexivity;
    try (unfold shouldDeserialize, bind, lift, ret; simpl;
         rewrite ?andb_false_r;
         match goal with |- context [if ?b then _ else _] => destruct b end;
         reflexivity).
Qed.

(** X4.  The listener of the constructor and its predicate never throw,
    whatever arrives ([undefined], [null], a primitive, an object without the
    properties they read): the predicate answers without touching the
    instance, and is true exactly for a truthy message with a string type and
    the channel name of the instance. *)
Theorem listener_never_throws (rt : Runtime) (m : value) :
  fst (portListener m rt) = Ok tt /\
  shouldDeserialize m rt =
  (Ok match get m "type", get m "channelName" with
      | Ok t, Ok c =>
          truthy m && is_string t && strict_eq c (channelName (this rt))
      | _, _ => false
      end, rt).
Proof. split; [apply portListener_ok | apply shouldDeserialize_run]. Qed.

(** The inbound listener, case by case. *)
Lemma onMessage_by_cases (rt : Runtime) (m : value) :
  onMessage m rt =
  if match get m "type", get m "channelName" with
     | Ok t, Ok c =>
         truthy m && is_string t && strict_eq c (channelName (this rt))
     | _, _ => false
     end
  then
    match get m "payload" with
    | Ok p =>
        if payloadPresent p then
          match deserializer (this rt) p with
          | Ok p' =>
              portListener (withPayload m p')
                {| this := this rt; trace := trace rt ++ [EDeserialize p] |}
          | Throw e =>
              (Throw e,
               {| this := this rt; trace := trace rt ++ [EDeserialize p] |})
          end
        else portListener m rt
    | Throw e => (Throw e, rt)
    end
  else portListener m rt.
Proof.
  unfold onMessage, withDeserializer. unfold bind at 1. unfold gets at 1.
  unfold bind at 1. rewrite shouldDeserialize_run.
  match goal with |- context [if ?b then _ else _] => destruct b end;
    [|reflexivity].
  unfold bind at 1. unfold lift at 1.
  destruct (get m "payload") as [p|e]; [|reflexivity].
  destruct (payloadPresent p); [|reflexivity].
  unfold bind at 1. unfold emit at 1. unfold bind at 1. unfold lift at 1.
  destruct (deserializer (this rt) p); reflexivity.
Qed.

(** X5.  With listeners and a patch strategy that return, an inbound
    message makes the wrapped listener throw only when the deserializer
    throws on its payload; what is thrown is what the deserializer threw, and
    the instance is as before: nothing is assigned, no listener is called and
    readiness is not resolved. *)
Theorem onMessage_fails_with_the_deserializer
    (rt : Runtime) (m : value) (e : exn) :
  fst (onMessage m rt) = Throw e ->
  exists p, get m "payload" = Ok p /\
            payloadPresent p = true /\
            deserializer (this rt) p = Throw e /\
            snd (onMessage m rt) =
            {| this := this rt; trace := trace rt ++ [EDeserialize p] |}.
Proof.
  rewrite onMessage_by_cases.
  match goal with |- context [if ?b then _ else _] => destruct b eqn:S end;
    [|rewrite portListener_ok; discriminate].
  destruct (get m "payload") as [p|e'] eqn:P.
  - destruct (payloadPresent p) eqn:PP;
      [|rewrite portListener_ok; discriminate].
    destruct (deserializer (this rt) p) as [p'|e'] eqn:D.
    + rewrite portListener_ok. discriminate.
    + simpl. intros H. injection H as <-. exists p. repeat split; auto.
  - destruct m; simpl in *; discriminate.
Qed.

Lemma lookup_absent (k : string) (fields : list (string * value)) :
  (forall v, ~ In (k, v) fields) -> lookup k fields = VUndefined.
Proof.
  induction fields as [|[k' w] fields IH]; simpl; [reflexivity|].
  intros H. destruct (String.eqb_spec k k') as [->|N].
  - exfalso. apply (H w). left. reflexivity.
  - apply IH. intros v Hin. apply (H v). right. exact Hin.
Qed.

(** X7.  A STATE message of this channel that has no payload replaces the
    state with [undefined]; the listeners are called and readiness is
    resolved all the same. *)
Theorem state_message_without_payload
    (rt : Runtime) (fields : list (string * value)) :
  lookup "type" fields = VStr STATE_TYPE ->
  strict_eq (lookup "channelName" fields) (channelName (this rt)) = true ->
  (forall v, ~ In ("payload", v) fields) ->
  let rt' := snd (portListener (VObj fields) rt) in
  state (this rt') = VUndefined /\
  readyResolved (this rt') = true /\
  calls (trace rt') = calls (trace rt) ++ listeners (this rt).
Proof.
  intros T C A rt'. subst rt'.
  rewrite portListener_state with (c := lookup "channelName" fields); auto.
  rewrite (@lookup_absent "payload" fields A). simpl.
  destruct (readyResolved (this rt)) eqn:R; unfold fulfil; simpl;
    [|destruct (readyPromise (this rt)); simpl];
    rewrite ?R, !calls_app; simpl; rewrite calls_map_ECall, ?app_nil_r;
    auto.
Qed.


(** ** PATCH_STATE messages *)

Lemma portListener_patch (rt : Runtime) (fields : list (string * value)) :
  STATE_TYPE <> PATCH_STATE_TYPE ->
  lookup "type" fields = VStr PATCH_STATE_TYPE ->
  strict_eq (lookup "channelName" fields) (channelName (this rt)) = true ->
  portListener (VObj fields) rt = patchState (lookup "payload" fields) rt.
Proof.
  intros N T C. unfold portListener, bind at 1, lift, gets. simpl.
  unfold bind at 1. rewrite C. simpl. unfold bind at 1. rewrite T. simpl.
  destruct (String.eqb_spec PATCH_STATE_TYPE STATE_TYPE) as [E|_];
    [congruence|].
  rewrite String.eqb_refl. reflexivity.
Qed.


(** ** Readiness, seen from outside *)


Lemma Reachable_run (events : list Event) (rt : Runtime) :
  Reachable rt -> Reachable (run events rt).
Proof.
  revert rt. induction events as [|e events IH]; intros rt H; simpl.
  - exact H.
  - apply IH. apply Reachable_task. exact H.
Qed.

(** After every turn no patch waits on a resolved readiness. *)
Lemma Reachable_drained (rt : Runtime) :
  Reachable rt -> readyResolved (this rt) = true -> suspended (this rt) = [].
Proof.
  intros H. pose proof (Reachable_Inv H) as I. destruct H as [o s tr H | e rt H].
  - apply Store_constructor_ok in H. simpl. intros R.
    destruct H as (_ & R' & _). congruence.
  - unfold task in *.
    set (rt1 := snd (handle e rt)) in *.
    assert (Inv rt1) as I1
      by (apply (@respects_handle Keeps e (or_introl eq_refl) rt);
          apply Reachable_Inv; exact H).
    destruct (readyPromise (this rt1)) as [|v] eqn:P.
    + rewrite (@resume_pending rt1 P). simpl. intros R.
      unfold Inv in I1. rewrite R in I1. destruct I1. congruence.
    + rewrite (@resume_fulfilled rt1 v P). reflexivity.
Qed.

(** X9.  Once readiness is resolved it stays resolved, and no call of
    [patchState] waits any more: after any further events the list of
    suspended patches is empty and [patchState] applies its patch within
    the call. *)
Theorem ready_instance_suspends_nothing
    (rt : Runtime) (events : list Event) (d : value) :
  Reachable rt ->
  readyResolved (this rt) = true ->
  let rt' := run events rt in
  readyResolved (this rt') = true /\
  suspended (this rt') = [] /\
  patchState d rt' = applyPatch d rt'.
Proof.
  intros H R rt'.
  assert (readyResolved (this rt') = true) as R'
    by (apply (Keeps_run events rt); exact R).
  split; [exact R'|]. split.
  - apply Reachable_drained; [apply Reachable_run; exact H | exact R'].
  - unfold patchState, bind, gets. simpl. rewrite R'. reflexivity.
Qed.

Lemma SameReadiness_refl (rt : Runtime) : SameReadiness rt rt.
Proof. repeat split. Qed.

Lemma SameReadiness_trans (a b c : Runtime) :
  SameReadiness a b -> SameReadiness b c -> SameReadiness a c.
Proof. intros (? & ? & ?) (? & ? & ?). repeat split; congruence. Qed.

Lemma SameReadiness_emit (e : effect) :
  e <> EReadyResolve -> respects SameReadiness (emit e).
Proof.
  intros He rt. unfold emit, SameReadiness. simpl.
  rewrite resolutions_app.
  assert (resolutions [e] = 0) as -> by (destruct e; simpl; congruence).
  rewrite Nat.add_0_r. repeat split.
Qed.

Lemma SameReadiness_modify (f : Store -> Store) :
  readiness_free f -> respects SameReadiness (modify f).
Proof.
  intros Hf rt. unfold modify, SameReadiness. simpl.
  destruct (Hf (this rt)) as [-> ->]. repeat split.
Qed.

#[local] Hint Resolve SameReadiness_refl SameReadiness_modify : respects.
#[local] Hint Extern 1 (respects SameReadiness (emit _)) =>
  apply SameReadiness_emit; discriminate : respects.
#[local] Hint Extern 2 (respects SameReadiness (bind _ _)) =>
  apply (respects_bind SameReadiness_trans); [|intros] : respects.
#[local] Hint Extern 2 (respects SameReadiness (forEach _ _)) =>
  apply (respects_forEach SameReadiness_refl SameReadiness_trans); intros
  : respects.

Lemma SameReadiness_applyPatch (d : value) :
  respects SameReadiness (applyPatch d).
Proof. unfold applyPatch, notify. auto 12 with respects. Qed.

Lemma SameReadiness_resume : respects SameReadiness resume.
Proof.
  pose proof SameReadiness_applyPatch.
  unfold resume. apply (respects_bind SameReadiness_trans);
    [auto with respects|]. intros [|v]; [auto with respects|].
  apply (respects_bind SameReadiness_trans); [auto with respects|].
  intros ds. apply (respects_bind SameReadiness_trans).
  - apply SameReadiness_modify.
    exact (readiness_free_set_suspended (fun _ => [])).
  - intros _. auto with respects.
Qed.

Lemma SameReadiness_handle (e : Event) :
  is_delivery e = false -> respects SameReadiness (handle e).
Proof.
  pose proof SameReadiness_applyPatch.
  destruct e; simpl; try discriminate; intros _;
    unfold subscribe, unsubscribe, getState, replaceReducer, replaceState,
      patchState, notify, dispatch, dispatchCallback.
  - apply (respects_bind SameReadiness_trans); [|auto with respects].
    apply (respects_bind SameReadiness_trans); [|auto with respects].
    apply SameReadiness_modify.
    exact (readiness_free_set_listeners (fun s => listeners s ++ [l])).
  - apply SameReadiness_modify.
    exact (readiness_free_set_listeners
             (fun s => filter (fun l' => negb (l' =? l)%nat) (listeners s))).
  - auto with respects.
  - auto with respects.
  - auto 10 with respects.
  - apply (respects_bind SameReadiness_trans); [auto with respects|].
    intros ready. destruct (negb ready); [|auto].
    apply SameReadiness_modify.
    exact (readiness_free_set_suspended
             (fun s => suspended s ++ [difference])).
  - auto 20 with respects.
Qed.

(** X14.  Only the transport resolves readiness.  A turn in which the
    application calls a method ([subscribe], an unsubscribe function,
    [getState], [replaceReducer], [replaceState], [patchState], [dispatch])
    leaves the flag, the promise and the number of calls of [readyResolve] as
    they are; in particular a direct call of [replaceState] does not make the
    instance ready. *)
Theorem only_deliveries_resolve_readiness (rt : Runtime) (e : Event) :
  is_delivery e = false ->
  readyResolved (this (task e rt)) = readyResolved (this rt) /\
  readyPromise (this (task e rt)) = readyPromise (this rt) /\
  resolutions (trace (task e rt)) = resolutions (trace rt).
Proof.
  intros H. unfold task.
  exact (SameReadiness_trans (SameReadiness_handle e H rt)
           (SameReadiness_resume _)).
Qed.


(** ** The registry over time *)

Lemma filter_appended (l : listener) (ls : list listener) :
  ~ In l ls -> filter (fun l' => negb (l' =? l)%nat) (ls ++ [l]) = ls.
Proof.
  induction ls as [|x ls IH]; simpl; intros H.
  - rewrite Nat.eqb_refl. reflexivity.
  - destruct (Nat.eqb_spec x l) as [->|Hx]; simpl.
    + exfalso. apply H. left. reflexivity.
    + rewrite IH; [reflexivity|]. intros Hin. apply H. right. exact Hin.
Qed.

(** X10.  For a listener that is not registered, subscribing and then
    calling the unsubscribe function it returned leaves the instance exactly
    as it was. *)
Theorem unsubscribe_undoes_subscribe (rt : Runtime) (l : listener) :
  ~ In l (listeners (this rt)) ->
  bind (subscribe l) (fun u => u) rt = (Ok tt, rt).
Proof.
  intros H. unfold subscribe, unsubscribe, bind, modify, ret.
  cbn [this trace listeners set_listeners].
  rewrite (@filter_appended l _ H).
  destruct rt as [[] ?]; reflexivity.
Qed.

Lemma Unheard_refl (l : listener) (rt : Runtime) : Unheard l rt rt.
Proof. intros H. split; auto. Qed.

Lemma Unheard_trans (l : listener) (a b c : Runtime) :
  Unheard l a b -> Unheard l b c -> Unheard l a c.
Proof.
  intros Hab Hbc Ha. destruct (Hab Ha) as [Hb Cb].
  destruct (Hbc Hb) as [Hc Cc]. split; [exact Hc | congruence].
Qed.

Lemma Unheard_emit (l : listener) (e : effect) :
  e <> ECall l -> respects (Unheard l) (emit e).
Proof.
  intros He rt H. unfold emit. simpl. split; [exact H|].
  rewrite calls_app, count_occ_app.
  match goal with |- _ + ?x = _ => assert (x = 0) as -> end.
  { destruct e; simpl; try reflexivity.
    destruct (Nat.eq_dec l0 l) as [->|]; [congruence | reflexivity]. }
  apply Nat.add_0_r.
Qed.

Lemma Unheard_modify (l : listener) (f : Store -> Store) :
  (forall s, ~ In l (listeners s) -> ~ In l (listeners (f s))) ->
  respects (Unheard l) (modify f).
Proof. intros Hf rt H. unfold modify. simpl. split; auto. Qed.

Lemma Unheard_notify (l : listener) : respects (Unheard l) notify.
Proof.
  intros rt H. rewrite notify_run. simpl. split; [exact H|].
  rewrite calls_app, count_occ_app, calls_map_ECall.
  match goal with |- _ + ?x = _ => assert (x = 0) as -> end.
  { apply count_occ_not_In. exact H. }
  apply Nat.add_0_r.
Qed.

#[local] Hint Resolve Unheard_refl Unheard_notify : respects.
#[local] Hint Extern 1 (respects (Unheard _) (emit _)) =>
  apply Unheard_emit; discriminate : respects.
#[local] Hint Extern 1 (respects (Unheard _) (modify _)) =>
  apply Unheard_modify; intros ? ?; unfold fulfil;
  repeat match goal with |- context [match ?x with _ => _ end] =>
           destruct x end; simpl; assumption : respects.
#[local] Hint Extern 2 (respects (Unheard ?l) (bind _ _)) =>
  apply (respects_bind (@Unheard_trans l)); [|intros] : respects.
#[local] Hint Extern 2 (respects (Unheard ?l) (forEach _ _)) =>
  apply (respects_forEach (Unheard_refl l) (@Unheard_trans l)); intros
  : respects.

Lemma Unheard_replaceState (l : listener) (v : value) :
  respects (Unheard l) (replaceState v).
Proof. unfold replaceState. auto 8 with respects. Qed.

Lemma Unheard_applyPatch (l : listener) (d : value) :
  respects (Unheard l) (applyPatch d).
Proof. unfold applyPatch. auto 10 with respects. Qed.

Lemma Unheard_patchState (l : listener) (d : value) :
  respects (Unheard l) (patchState d).
Proof.
  pose proof (Unheard_applyPatch l). unfold patchState.
  auto 8 with respects.
Qed.

Lemma Unheard_resolveOnce (l : listener) : respects (Unheard l) resolveOnce.
Proof. unfold resolveOnce, readyResolve. auto 8 with respects. Qed.

Lemma Unheard_resume (l : listener) : respects (Unheard l) resume.
Proof.
  pose proof (Unheard_applyPatch l). unfold resume. auto 10 with respects.
Qed.

Lemma Unheard_handle (l : listener) (e : Event) :
  subscribes l e = false -> respects (Unheard l) (handle e).
Proof.
  pose proof (Unheard_replaceState l). pose proof (Unheard_patchState l).
  pose proof (Unheard_resolveOnce l).
  destruct e; simpl; intros S;
    unfold onMessage, withDeserializer, shouldDeserialize, portListener,
      initializeStore, subscribe, unsubscribe, getState, replaceReducer,
      dispatch, dispatchCallback;
    try solve [auto 20 with respects].
  - apply (respects_bind (@Unheard_trans l)); [|auto with respects].
    apply (respects_bind (@Unheard_trans l)); [|auto with respects].
    apply Unheard_modify. intros s Hs. simpl. rewrite in_app_iff.
    intros [Hin | [-> | []]]; [auto|]. rewrite Nat.eqb_refl in S.
    discriminate.
  - apply Unheard_modify. intros s Hs. simpl. rewrite filter_In. tauto.
Qed.

Lemma Unheard_task (l : listener) (e : Event) (rt : Runtime) :
  subscribes l e = false -> Unheard l rt (task e rt).
Proof.
  intros S. unfold task.
  exact (Unheard_trans (Unheard_handle l e S rt) (Unheard_resume l _)).
Qed.

(** X11.  A listener that is not registered is not called: as long as no
    event subscribes it again, after any events it is still out of the
    registry and the trace holds no further call of it, whatever state
    replacements and patches happen. *)
Theorem unsubscribed_listener_is_never_called
    (rt : Runtime) (l : listener) (events : list Event) :
  ~ In l (listeners (this rt)) ->
  forallb (fun e => negb (subscribes l e)) events = true ->
  ~ In l (listeners (this (run events rt))) /\
  count_occ Nat.eq_dec (calls (trace (run events rt))) l =
  count_occ Nat.eq_dec (calls (trace rt)) l.
Proof.
  revert rt. induction events as [|e events IH]; intros rt H S; simpl in *.
  - split; [exact H | reflexivity].
  - apply andb_prop in S. destruct S as [Se Ss].
    apply negb_true_iff in Se.
    destruct (@Unheard_task l e rt Se H) as [H1 C1].
    destruct (IH _ H1 Ss) as [H2 C2]. split; [exact H2 | congruence].
Qed.

(** ** What [dispatch] touches *)

(** X12.  [dispatch] changes nothing in the instance (state, registry,
    readiness, suspended patches), whatever the serializer does and whatever
    the transport answers.  It sends exactly one message when the serializer
    returns and none when the serializer throws.  The deserializer is called
    once, on [response.value], for every truthy response, an error response
    included, and not at all for a falsy response or when no response
    comes. *)
Theorem dispatch_leaves_the_instance
    (rt : Runtime) (data : value) (reply : option Reply) :
  this (snd (dispatch data reply rt)) = this rt /\
  trace (snd (dispatch data reply rt)) =
    trace rt ++
    match dispatchMessage (this rt) data with
    | Throw _ => []
    | Ok message =>
        ESendMessage message
        :: match reply with
           | Some r =>
               if truthy (resp r) then
                 match get (resp r) "value" with
                 | Ok raw => [EDeserialize raw]
                 | Throw _ => []
                 end
               else []
           | None => []
           end
    end.
Proof.
  rewrite dispatch_run.
  destruct (dispatchMessage (this rt) data) as [sent|e]; simpl;
    [|rewrite app_nil_r; split; reflexivity].
  destruct reply as [r|].
  - rewrite dispatchCallback_run. simpl.
    destruct (truthy (resp r)) eqn:T; simpl;
      [|split; [reflexivity | trace_eq]].
    destruct (get_truthy (resp r) "error" T) as [error ->].
    destruct (get_truthy (resp r) "value" T) as [raw ->].
    destruct (truthy error); [split; [reflexivity | trace_eq]|].
    match goal with |- context [truthy ?v] => destruct (truthy v) eqn:V end;
      [|split; [reflexivity | trace_eq]].
    match type of V with truthy ?v = true =>
      destruct (get_truthy v "payload" V) as [payload ->] end.
    split; [reflexivity | trace_eq].
  - split; [reflexivity | trace_eq].
Qed.

Lemma dispatchMessage_throws (s1 s2 : Store) (data : value) :
  serializer s1 data = serializer s2 data ->
  match dispatchMessage s1 data, dispatchMessage s2 data with
  | Throw e1, Throw e2 => e1 = e2
  | Ok _, Ok _ => True
  | _, _ => False
  end.
Proof.
  intros H. unfold dispatchMessage, withSerializer. simpl.
  destruct (payloadPresent data); [|exact I]. rewrite H.
  destruct (serializer s2 data); [exact I | reflexivity].
Qed.

(** X13.  The promise of [dispatch] does not wait for readiness and does not
    depend on the state: on two instances whose deserializers are the same
    and whose serializers do the same on the data, the same answer of the
    transport settles it the same way. *)
Theorem dispatch_outcome_ignores_state_and_readiness
    (rt1 rt2 : Runtime) (data : value) (reply : option Reply) :
  deserializer (this rt1) = deserializer (this rt2) ->
  serializer (this rt1) data = serializer (this rt2) data ->
  fst (dispatch data reply rt1) = fst (dispatch data reply rt2).
Proof.
  intros D S. rewrite !dispatch_run.
  pose proof (dispatchMessage_throws (this rt1) (this rt2) data S) as H.
  destruct (dispatchMessage (this rt1) data) as [m1|e1];
    destruct (dispatchMessage (this rt2) data) as [m2|e2];
    try contradiction; [|subst; reflexivity].
  simpl. destruct reply as [r|]; [|reflexivity].
  rewrite !dispatchCallback_run. simpl. rewrite D.
  destruct (truthy (resp r)) eqn:T; simpl; [|reflexivity].
  destruct (get_truthy (resp r) "error" T) as [error ->].
  destruct (get_truthy (resp r) "value" T) as [raw ->].
  destruct (truthy error); [reflexivity|].
  match goal with |- context [truthy ?v] => destruct (truthy v) eqn:V end;
    [|reflexivity].
  match type of V with truthy ?v = true =>
    destruct (get_truthy v "payload" V) as [payload ->] end.
  reflexivity.
Qed.

(** ** Who hears a suspended patch *)

Lemma calls_patchTrace (strategy : patchStrategy_t) (ls : list listener)
    (current : value) (ds : list value) :
  calls (patchTrace strategy ls current ds) = concat (map (fun _ => ls) ds).
Proof.
  revert current. induction ds as [|d ds IH]; intros current; simpl.
  - reflexivity.
  - rewrite calls_app, calls_map_ECall, IH. reflexivity.
Qed.

(** X15.  A patch that waited for readiness notifies the listeners that are
    registered when it is applied, not those registered when [patchState]
    was called: a listener subscribed after the call, before the answer to
    FETCH_STATE, is called once for the replaced state and once for every
    patch that waited. *)
Theorem suspended_patch_notifies_current_listeners
    (rt : Runtime) (d : value) (l : listener) (answer q w : value) :
  Reachable rt ->
  readyResolved (this rt) = false ->
  get answer "type" = Ok (VStr FETCH_STATE_TYPE) ->
  get answer "payload" = Ok q ->
  deserializer (this rt) q = Ok w ->
  let rt' := run [CallPatchState d; CallSubscribe l; FetchAnswer answer] rt in
  let ls := listeners (this rt) ++ [l] in
  listeners (this rt') = ls /\
  calls (trace rt') =
    calls (trace rt) ++ ls ++
    concat (map (fun _ => ls) (suspended (this rt) ++ [d])).
Proof.
  intros Hreach R T P D rt' ls. subst rt'. simpl.
  pose proof (Reachable_Inv Hreach) as I.
  rewrite (@task_patchState_unready rt d I R).
  unfold Inv in I. rewrite R in I. destruct I as [Pp _].
  unfold task. simpl.
  unfold subscribe, bind, modify, ret. simpl.
  match goal with
  | |- context [resume {| this := ?s; trace := ?t |}] =>
      rewrite (@resume_pending {| this := s; trace := t |} Pp)
  end. simpl.
  rewrite initializeStore_run with (q := q) (w := w);
    [| exact T | exact P | exact D]. simpl. rewrite R.
  erewrite resume_fulfilled
    by (simpl; unfold fulfil; simpl; rewrite Pp; reflexivity).
  simpl. unfold fulfil. simpl. rewrite Pp. simpl. split; [reflexivity|].
  rewrite !calls_app. simpl. rewrite calls_app, calls_map_ECall. simpl.
  rewrite calls_patchTrace, app_nil_r, <- app_assoc. reflexivity.
Qed.

End Properties.

(** ** The properties on the concrete instance *)

Lemma readiness_resolves_at_most_once_witness :
  Store_constructor (imports := demoImports) None [] =
    (Ok demoStore, trace demoRuntime) /\
  resolutions (trace (run (imports := demoImports) demoEvents demoRuntime))
    <= 1.
Proof.
  split; [reflexivity|].
  exact (proj1 (@readiness_resolves_at_most_once demoImports None demoStore
                  (trace demoRuntime) demoEvents demoEvents eq_refl)).
Defined.

Example readiness_resolved_once_in_demo :
  resolutions (trace (run (imports := demoImports) demoEvents demoRuntime)) = 1
  /\ state (this (run (imports := demoImports) demoEvents demoRuntime)) =
     VObj [("count", VNum 3)].
Proof. split; reflexivity. Qed.


(** The scenario of the spec: a patch arrives before the answer to
    FETCH_STATE; it is applied after the answer, and the listener is called
    once for the answer and once for the patch. *)
Example patch_applied_after_answer :
  let rt := run (imports := demoImports)
              [Inbound (envelope "PATCH_STATE" "main"
                                 (VObj [("count", VNum 1)]));
               FetchAnswer (envelope "FETCH_STATE" "main"
                                     (VObj [("count", VNum 0)]))]
              demoSubscribed in
  state (this rt) = VObj [("count", VNum 1)] /\
  calls (trace rt) = [7; 7] /\
  patches (trace rt) = [(VObj [("count", VNum 0)], VObj [("count", VNum 1)])].
Proof. repeat split; reflexivity. Qed.

Lemma both_paths_replace_then_resolve_witness :
  onMessage (imports := demoImports)
    (envelope "STATE" "main" (VObj [("count", VNum 0)])) demoSubscribed =
    (Ok tt,
     {| this := fulfil VUndefined
                  (set_readyResolved true
                     (set_state (VObj [("count", VNum 0)])
                                (this demoSubscribed)));
        trace := trace demoSubscribed ++
                 [EDeserialize (VObj [("count", VNum 0)]);
                  ESetState (VObj [("count", VNum 0)]);
                  ECall 7; EReadyResolve] |}) /\
  initializeStore (imports := demoImports)
    (envelope "FETCH_STATE" "main" (VObj [("count", VNum 1)]))
    demoSubscribed =
    (Ok tt,
     {| this := fulfil VUndefined
                  (set_readyResolved true
                     (set_state (VObj [("count", VNum 1)])
                                (this demoSubscribed)));
        trace := trace demoSubscribed ++
                 [EDeserialize (VObj [("count", VNum 1)]);
                  ESetState (VObj [("count", VNum 1)]);
                  ECall 7; EReadyResolve] |}).
Proof.
  exact (@both_paths_replace_then_resolve demoImports demoSubscribed
           (envelope "STATE" "main" (VObj [("count", VNum 0)]))
           (envelope "FETCH_STATE" "main" (VObj [("count", VNum 1)]))
           (VStr "main") (VObj [("count", VNum 0)]) (VObj [("count", VNum 1)])
           (VObj [("count", VNum 0)]) (VObj [("count", VNum 1)])
           eq_refl eq_refl eq_refl eq_refl eq_refl eq_refl eq_refl eq_refl).
Defined.


Example replaceState_calls_each_registration_in_order :
  calls (trace (run (imports := demoImports)
                  [CallSubscribe 1; CallSubscribe 2; CallSubscribe 1;
                   CallReplaceState (VNum 5)] demoRuntime)) = [1; 2; 1].
Proof. reflexivity. Qed.

(** C4 as stated fails: a message of this channel whose type is none of the
    four type strings is not dropped before deserialization; its payload is
    handed to the deserializer. *)
Lemma unrecognized_type_is_deserialized :
  ~ In "OTHER" [DISPATCH_TYPE (Imports := demoImports);
                FETCH_STATE_TYPE (Imports := demoImports);
                STATE_TYPE (Imports := demoImports);
                PATCH_STATE_TYPE (Imports := demoImports)] /\
  onMessage (imports := demoImports)
    (envelope "OTHER" "main" (VStr "x")) demoRuntime <> (Ok tt, demoRuntime) /\
  trace (snd (onMessage (imports := demoImports)
                (envelope "OTHER" "main" (VStr "x")) demoRuntime)) =
    trace demoRuntime ++ [EDeserialize (VStr "x")].
Proof.
  split; [|split; [|reflexivity]].
  - simpl. intros [H | [H | [H | [H | []]]]]; discriminate.
  - intros H. apply (f_equal (fun x => length (trace (snd x)))) in H.
    discriminate.
Qed.

Example mismatched_channel_is_dropped :
  onMessage (imports := demoImports)
    (envelope "STATE" "other" (VObj [("count", VNum 9)])) demoSubscribed =
  (Ok tt, demoSubscribed).
Proof. reflexivity. Qed.

(** C5 as stated fails.  With the same listener registered twice, one call
    of an unsubscribe function removes both registrations, not one.  And a
    second call of an unsubscribe function is not a no-op when the listener
    has been subscribed again in between. *)
Lemma unsubscribe_is_not_once_only :
  fst (duplicateScenario demoRuntime) <> Ok [1] /\
  fst (duplicateScenario demoRuntime) = Ok [] /\
  fst (resubscribeScenario demoRuntime) = Ok ([1], []).
Proof.
  split; [|split; reflexivity].
  intros H. vm_compute in H. discriminate H.
Qed.

Lemma unsubscribe_removes_every_registration_witness :
  ~ In 5 (listeners (this demoSubscribed)) /\
  unsubscribe 5 demoSubscribed = (Ok tt, demoSubscribed).
Proof.
  assert (~ In 5 (listeners (this demoSubscribed))) as H.
  { simpl. intros [H | []]. discriminate. }
  split; [exact H|].
  exact (proj1 (proj2 (proj2 (proj2
           (@unsubscribe_removes_every_registration demoSubscribed 5)))) H).
Defined.

Example dispatch_rejects_boom :
  fst (dispatch (imports := demoImports) VNull (Some replyBoom) demoRuntime) =
  Ok (Rejected {| message := VStr (backgroundErrPrefix ++ "boom");
                  own := [("0", VStr "b"); ("1", VStr "o");
                          ("2", VStr "o"); ("3", VStr "m")] |}).
Proof. reflexivity. Qed.

Example dispatch_rejects_no_response_nor_last_error :
  fst (dispatch (imports := demoImports) VNull
         (Some {| resp := VUndefined; lastError := VUndefined |})
         demoRuntime) =
  Ok (Rejected {| message := VStr (backgroundErrPrefix ++ "undefined");
                  own := [] |}).
Proof. reflexivity. Qed.

(** C6 as stated fails twice.  With a serializer that throws on the data,
    the promise is rejected although the transport gave no response at all,
    falsy or with an error: nothing was sent.  And on a falsy response with
    the last error [{ message: "closed" }], the error the promise is rejected
    with has the message ["closed"]: merging the last error onto it has
    replaced the message that held the prefix. *)
Lemma dispatch_rejection_is_not_as_claimed :
  dispatch (imports := demoImports) (VStr "oops") None strictSender =
    (Ok (RejectedThrown (Error "the payload is not an object")),
     strictSender) /\
  fst (dispatch (imports := demoImports) VNull (Some replyClosed)
         demoRuntime) =
    Ok (Rejected {| message := VStr "closed"; own := [] |}) /\
  String.prefix backgroundErrPrefix "closed" = false.
Proof. repeat split. Qed.

Lemma dispatch_rejects_in_three_cases_witness :
  VStr "code" <> VStr "message" /\
  lookup "code"
    (own (assignIn
            (new_Error (backgroundErrPrefix ++ "[object Object]"))
            (VObj [("message", VStr "closed"); ("code", VNum 7)]))) =
  VNum 7.
Proof.
  split; [discriminate|].
  refine (proj2 (proj2 (@dispatch_rejects_in_three_cases demoImports
                          demoRuntime VNull None)
                       (VObj [("message", VStr "closed"); ("code", VNum 7)]))
                "code" _).
  discriminate.
Defined.

(** C7 as stated fails: on the response [{ value: 0 }] the promise is
    resolved with 0, not with the [payload] property of 0, which is
    [undefined]. *)
Lemma dispatch_falsy_value_is_not_its_payload :
  get (VNum 0) "payload" = Ok VUndefined /\
  fst (dispatch (imports := demoImports) VNull (Some replyZero) demoRuntime)
    <> Ok (Resolved VUndefined) /\
  fst (dispatch (imports := demoImports) VNull (Some replyZero) demoRuntime)
    = Ok (Resolved (VNum 0)).
Proof.
  split; [reflexivity | split; [|reflexivity]].
  intros H. vm_compute in H. discriminate H.
Qed.

Lemma dispatch_resolves_with_payload_witness :
  truthy (resp reply42) = true /\
  fst (dispatch (imports := demoImports) VNull (Some reply42) demoRuntime) =
  Ok (Resolved (VNum 42)).
Proof.
  split; [reflexivity|].
  exact (proj2 (proj2 (proj2
           (proj2 (@dispatch_resolves_with_payload demoImports demoRuntime
                     VNull reply42 VUndefined (VObj [("payload", VNum 42)])
                     eq_refl eq_refl eq_refl eq_refl)
                  (envelope "DISPATCH" "main" VNull) eq_refl)))
           eq_refl eq_refl).
Defined.

Lemma dispatch_resolves_with_falsy_value_witness :
  truthy (resp replyZero) = true /\
  fst (dispatch (imports := demoImports) VNull (Some replyZero) demoRuntime) =
  Ok (Resolved (VNum 0)).
Proof.
  split; [reflexivity|].
  exact (proj1 (proj2
           (@dispatch_resolves_with_falsy_value demoImports demoRuntime
              VNull replyZero VUndefined (VNum 0)
              eq_refl eq_refl eq_refl eq_refl eq_refl))
           (envelope "DISPATCH" "main" VNull) eq_refl).
Defined.

Example construction_rejects_empty_channel_name :
  Store_constructor (imports := demoImports)
    (Some {| opt_channelName := VStr "";
             opt_state := VUndefined;
             opt_serializer := Val VUndefined;
             opt_deserializer := Val VUndefined;
             opt_patchStrategy := Val VUndefined |}) [] =
  (Throw (Error "channelName is required in options"), []).
Proof. reflexivity. Qed.

Example construction_rejects_a_serializer_that_is_no_function :
  Store_constructor (imports := demoImports)
    (Some {| opt_channelName := VStr "main";
             opt_state := VUndefined;
             opt_serializer := Val (VStr "json");
             opt_deserializer := Val VUndefined;
             opt_patchStrategy := Val VUndefined |}) [] =
  (Throw (Error "serializer must be a function"), []).
Proof. reflexivity. Qed.

(** ** The further properties on the concrete instances *)

Lemma demoReady_reachable : Reachable (imports := demoImports) demoReady.
Proof.
  exact (Reachable_task (imports := demoImports)
           (FetchAnswer (envelope "FETCH_STATE" "main"
                                  (VObj [("count", VNum 0)])))
           (Reachable_task (imports := demoImports) (CallSubscribe 7)
              (Reachable_new (imports := demoImports) None eq_refl))).
Defined.

Lemma initializeStore_ignores_other_answers_witness :
  get (envelope "STATE" "main" (VObj [("count", VNum 0)])) "type" =
    Ok (VStr "STATE") /\
  initializeStore (imports := demoImports)
    (envelope "STATE" "main" (VObj [("count", VNum 0)])) demoSubscribed =
  (Ok tt, demoSubscribed).
Proof.
  split; [reflexivity|].
  apply (@initializeStore_ignores_other_answers demoImports).
  right. exists (VStr "STATE"). split; reflexivity.
Defined.

Lemma initializeStore_fails_with_the_deserializer_witness :
  deserializer (this strictRuntime) (VStr "oops") =
    Throw (Error "the payload is not an object") /\
  initializeStore (imports := demoImports)
    (envelope "FETCH_STATE" "main" (VStr "oops")) strictRuntime =
  (Throw (Error "the payload is not an object"),
   {| this := this strictRuntime;
      trace := trace strictRuntime ++ [EDeserialize (VStr "oops")] |}).
Proof.
  split; [reflexivity|].
  exact (proj2 (@initializeStore_fails_with_the_deserializer demoImports
                  strictRuntime
                  (envelope "FETCH_STATE" "main" (VStr "oops"))
                  (Error "the payload is not an object"))
               (VStr "oops") eq_refl eq_refl eq_refl).
Defined.

Lemma initializeStore_reads_type_and_payload_only_witness :
  initializeStore (imports := demoImports)
    (envelope "FETCH_STATE" "main" (VObj [("count", VNum 4)])) demoSubscribed =
  initializeStore (imports := demoImports)
    (envelope "FETCH_STATE" "elsewhere" (VObj [("count", VNum 4)]))
    demoSubscribed.
Proof.
  exact (@initializeStore_reads_type_and_payload_only demoImports
           demoSubscribed
           (envelope "FETCH_STATE" "main" (VObj [("count", VNum 4)]))
           (envelope "FETCH_STATE" "elsewhere" (VObj [("count", VNum 4)]))
           eq_refl eq_refl).
Defined.

Example answer_for_another_channel_is_accepted :
  state (this (task (imports := demoImports)
                 (FetchAnswer (envelope "FETCH_STATE" "elsewhere"
                                        (VObj [("count", VNum 4)])))
                 demoSubscribed)) = VObj [("count", VNum 4)].
Proof. reflexivity. Qed.

Lemma onMessage_fails_with_the_deserializer_witness :
  fst (onMessage (imports := demoImports)
         (envelope "STATE" "main" (VStr "oops")) strictRuntime) =
    Throw (Error "the payload is not an object") /\
  exists p,
    deserializer (this strictRuntime) p =
      Throw (Error "the payload is not an object") /\
    snd (onMessage (imports := demoImports)
           (envelope "STATE" "main" (VStr "oops")) strictRuntime) =
    {| this := this strictRuntime;
       trace := trace strictRuntime ++ [EDeserialize p] |}.
Proof.
  split; [reflexivity|].
  destruct (@onMessage_fails_with_the_deserializer demoImports strictRuntime
              (envelope "STATE" "main" (VStr "oops"))
              (Error "the payload is not an object") eq_refl)
    as (p & _ & _ & D & S).
  exists p. split; [exact D | exact S].
Defined.


Lemma state_message_without_payload_witness :
  lookup "payload" [("type", VStr "STATE"); ("channelName", VStr "main")] =
    VUndefined /\
  state (this (snd (portListener (imports := demoImports)
                      (VObj [("type", VStr "STATE");
                             ("channelName", VStr "main")])
                      demoSubscribed))) = VUndefined.
Proof.
  split; [reflexivity|].
  refine (proj1 (@state_message_without_payload demoImports demoSubscribed
                   [("type", VStr "STATE"); ("channelName", VStr "main")]
                   eq_refl eq_refl _)).
  intros v [H | [H | []]]; discriminate H.
Defined.


Example ready_is_pending_before_the_answer :
  ready None demoSubscribed = (Ok Pending, demoSubscribed).
Proof. reflexivity. Qed.

Lemma ready_instance_suspends_nothing_witness :
  Reachable (imports := demoImports) demoReady /\
  readyResolved (this demoReady) = true /\
  suspended (this (run (imports := demoImports)
                     [CallPatchState (VObj [("count", VNum 1)]);
                      Inbound (envelope "PATCH_STATE" "main"
                                        (VObj [("count", VNum 2)]))]
                     demoReady)) = [].
Proof.
  split; [exact demoReady_reachable|]. split; [reflexivity|].
  exact (proj1 (proj2
           (@ready_instance_suspends_nothing demoImports demoReady
              [CallPatchState (VObj [("count", VNum 1)]);
               Inbound (envelope "PATCH_STATE" "main"
                                 (VObj [("count", VNum 2)]))]
              VNull demoReady_reachable eq_refl))).
Defined.

Lemma unsubscribe_undoes_subscribe_witness :
  ~ In 5 (listeners (this demoSubscribed)) /\
  bind (subscribe 5) (fun u => u) demoSubscribed = (Ok tt, demoSubscribed).
Proof.
  assert (~ In 5 (listeners (this demoSubscribed))) as H.
  { simpl. intros [H | []]. discriminate. }
  split; [exact H|].
  exact (@unsubscribe_undoes_subscribe demoSubscribed 5 H).
Defined.

Lemma unsubscribed_listener_is_never_called_witness :
  ~ In 5 (listeners (this demoSubscribed)) /\
  count_occ Nat.eq_dec
    (calls (trace (run (imports := demoImports)
                     [CallReplaceState (VNum 1); CallSubscribe 9;
                      Inbound (envelope "STATE" "main" (VNum 2))]
                     demoSubscribed))) 5 =
  count_occ Nat.eq_dec (calls (trace demoSubscribed)) 5.
Proof.
  assert (~ In 5 (listeners (this demoSubscribed))) as H.
  { simpl. intros [H | []]. discriminate. }
  split; [exact H|].
  exact (proj2 (@unsubscribed_listener_is_never_called demoImports
                  demoSubscribed 5
                  [CallReplaceState (VNum 1); CallSubscribe 9;
                   Inbound (envelope "STATE" "main" (VNum 2))]
                  H eq_refl)).
Defined.

Lemma dispatch_outcome_ignores_state_and_readiness_witness :
  deserializer (this demoRuntime) = deserializer (this demoReady) /\
  fst (dispatch (imports := demoImports) (VNum 1) (Some reply42)
         demoRuntime) =
  fst (dispatch (imports := demoImports) (VNum 1) (Some reply42) demoReady).
Proof.
  split; [reflexivity|].
  exact (@dispatch_outcome_ignores_state_and_readiness demoImports
           demoRuntime demoReady (VNum 1) (Some reply42) eq_refl eq_refl).
Defined.

Example dispatch_sends_nothing_when_the_serializer_throws :
  trace (snd (dispatch (imports := demoImports) (VStr "oops")
                (Some reply42) strictSender)) = trace strictSender.
Proof. reflexivity. Qed.

Lemma only_deliveries_resolve_readiness_witness :
  is_delivery (CallReplaceState (VObj [("count", VNum 9)])) = false /\
  readyResolved
    (this (task (imports := demoImports)
             (CallReplaceState (VObj [("count", VNum 9)])) demoSubscribed)) =
  false.
Proof.
  split; [reflexivity|].
  exact (proj1 (@only_deliveries_resolve_readiness demoImports demoSubscribed
                  (CallReplaceState (VObj [("count", VNum 9)])) eq_refl)).
Defined.

Lemma suspended_patch_notifies_current_listeners_witness :
  Reachable (imports := demoImports) demoSubscribed /\
  readyResolved (this demoSubscribed) = false /\
  calls (trace (run (imports := demoImports)
                  [CallPatchState (VObj [("count", VNum 1)]);
                   CallSubscribe 8;
                   FetchAnswer (envelope "FETCH_STATE" "main"
                                         (VObj [("count", VNum 0)]))]
                  demoSubscribed)) = [7; 8; 7; 8].
Proof.
  assert (Reachable (imports := demoImports) demoSubscribed) as H.
  { exact (Reachable_task (imports := demoImports) (CallSubscribe 7)
             (Reachable_new (imports := demoImports) None eq_refl)). }
  split; [exact H|]. split; [reflexivity|].
  exact (proj2 (@suspended_patch_notifies_current_listeners demoImports
                  demoSubscribed (VObj [("count", VNum 1)]) 8
                  (envelope "FETCH_STATE" "main" (VObj [("count", VNum 0)]))
                  (VObj [("count", VNum 0)]) (VObj [("count", VNum 0)])
                  H eq_refl eq_refl eq_refl eq_refl)).
Defined.
